(** * Petite Treats: bakery storefront

    A shallow embedding of the catalog API (app.js), of the script of the
    home page (its featured section), of the script of the products page
    (its "Add To Cart" flow) and of the script of the cart page (cart.js),
    followed by the properties of the specification that concern them.

    Conventions of the embedding:
    - JavaScript strings are [string]s of 8-bit characters; case mapping
      is the ASCII one (the keywords and the seeded catalog are ASCII),
      and a property about the case of a text of its own is stated for
      ASCII text;
    - the parameters of a request are strings that may be missing in
      [Server], and values of any JSON type in [Express];
    - prices are integers: the [products.price] column of setup.sql is
      [INT NOT NULL], and JavaScript arithmetic is exact on them; a text
      node that shows a number is modelled by that number, [parseInt],
      [parseFloat] and [toFixed(2)] being inverse to each other there;
    - the MySQL server is modelled by the tables of setup.sql, the
      documented meaning of [LIKE] and [=] under the default
      case-insensitive collation, and a list of booleans that says which
      of the successive database operations of a request fail. *)

From Stdlib Require Import String Ascii List ZArith Bool Arith Lia.
From Stdlib Require Import Permutation DecimalString.
Import ListNotations.

Open Scope list_scope.
Open Scope string_scope.

(** ** JavaScript string and array primitives used by the sources *)

Module JS.

Definition is_upper (c : ascii) : bool :=
  let n := nat_of_ascii c in (65 <=? n)%nat && (n <=? 90)%nat.

Definition is_lower (c : ascii) : bool :=
  let n := nat_of_ascii c in (97 <=? n)%nat && (n <=? 122)%nat.

(** An ASCII character. *)
Definition is_ascii (c : ascii) : bool := (nat_of_ascii c <? 128)%nat.

(** [toLowerCase] and [toUpperCase] on one ASCII character. JavaScript
    also maps the letters beyond ASCII, and may then change the length of
    the string; the embedding follows it on ASCII text only, and the
    properties that depend on the case of a text of their own say so
    ([Ref.ascii_text]). *)
Definition lower_char (c : ascii) : ascii :=
  if is_upper c then ascii_of_nat (nat_of_ascii c + 32) else c.

Definition upper_char (c : ascii) : ascii :=
  if is_lower c then ascii_of_nat (nat_of_ascii c - 32) else c.

(** [String.prototype.toLowerCase] *)
Fixpoint toLowerCase (s : string) : string :=
  match s with
  | EmptyString => EmptyString
  | String c s' => String (lower_char c) (toLowerCase s')
  end.

(** [s.charAt(0).toUpperCase() + s.slice(1)] *)
Definition capitalize (s : string) : string :=
  match s with
  | EmptyString => EmptyString
  | String c s' => String (upper_char c) s'
  end.

(** [String.prototype.split] with a one-character separator: the result
    always has at least one element (the empty string gives a single
    empty word). *)
Fixpoint split (sep : ascii) (s : string) : list string :=
  match s with
  | EmptyString => [EmptyString]
  | String c s' =>
      if Ascii.eqb c sep then EmptyString :: split sep s'
      else match split sep s' with
           | [] => [String c EmptyString]
           | w :: ws => String c w :: ws
           end
  end.

(** [Array.prototype.join] *)
Definition join (sep : string) (l : list string) : string := String.concat sep l.

(** [String.prototype.indexOf] with a string argument, [-1] when absent. *)
Fixpoint find_index (pat s : string) : option nat :=
  if String.prefix pat s then Some 0
  else match s with
       | EmptyString => None
       | String _ s' => option_map S (find_index pat s')
       end.

Definition indexOf (s pat : string) : Z :=
  match find_index pat s with
  | Some i => Z.of_nat i
  | None => (-1)%Z
  end.

(** [String.prototype.includes] *)
Definition includes (s pat : string) : bool :=
  match find_index pat s with Some _ => true | None => false end.

(** Relative index of [slice] and [splice]: negative counts from the end;
    the result is clamped to [0, len]. *)
Definition rel_index (len i : Z) : Z :=
  if (i <? 0)%Z then Z.max (len + i) 0 else Z.min i len.

(** [String.prototype.slice(from, to)] *)
Definition slice (s : string) (from to : Z) : string :=
  let len := Z.of_nat (String.length s) in
  let a := rel_index len from in
  let b := rel_index len to in
  String.substring (Z.to_nat a) (Z.to_nat (b - a)) s.

(** [Array.prototype.splice(start, 0, x)]: insertion, nothing deleted. *)
Definition splice_insert {A : Type} (l : list A) (start : Z) (x : A) : list A :=
  let k := Z.to_nat (rel_index (Z.of_nat (List.length l)) start) in
  (firstn k l ++ x :: skipn k l)%list.

(** [Array.prototype.splice(i, 1)] for [0 <= i]: the array without its
    [i]-th element. *)
Fixpoint splice_delete {A : Type} (l : list A) (i : nat) : list A :=
  match l, i with
  | [], _ => []
  | _ :: l', O => l'
  | x :: l', S i' => x :: splice_delete l' i'
  end.

Definition is_space (c : ascii) : bool :=
  let n := nat_of_ascii c in (n =? 32)%nat || ((9 <=? n)%nat && (n <=? 13)%nat).

Fixpoint trimStart (s : string) : string :=
  match s with
  | EmptyString => EmptyString
  | String c s' => if is_space c then trimStart s' else s
  end.

Fixpoint trimEnd (s : string) : string :=
  match s with
  | EmptyString => EmptyString
  | String c s' =>
      match trimEnd s' with
      | EmptyString => if is_space c then EmptyString else String c EmptyString
      | t => String c t
      end
  end.

(** [String.prototype.trim] (ASCII white space) *)
Definition trim (s : string) : string := trimEnd (trimStart s).

(** Truthiness of a possibly missing string: [undefined] and the empty
    string are falsy. *)
Definition truthy (v : option string) : bool :=
  match v with
  | None | Some EmptyString => false
  | Some _ => true
  end.

(** Decimal rendering of a non-negative integer, as in a template literal. *)
Definition string_of_nat (n : nat) : string :=
  NilEmpty.string_of_uint (Nat.to_uint n).

(** [Number.prototype.toFixed(2)] of an integer. *)
Definition toFixed2 (z : Z) : string :=
  NilZero.string_of_int (Z.to_int z) ++ ".00".

End JS.

(** ** Name conventions shared by the server and the page scripts *)

(** [formatDashes("Mini Palmiers") = "mini-palmiers"] *)
Definition formatDashes (name : string) : string :=
  let words := JS.split " " name in
  let result := JS.toLowerCase (hd EmptyString words) in
  fold_left (fun result nextWord => result ++ "-" ++ JS.toLowerCase nextWord)
            (tl words) result.

(** [formatTitleCase("mini-palmier") = "Mini Palmier"] *)
Definition formatTitleCase (dirName : string) : string :=
  let words := JS.split "-" dirName in
  let firstWord := hd EmptyString words in
  let result := JS.capitalize firstWord in
  fold_left (fun result nextWord => result ++ " " ++ JS.capitalize nextWord)
            (tl words) result.

(** ** The catalog API (app.js) *)

Module Server.

Definition SERVER_ERROR : string :=
  "The server encountered an error, please try again later.".
Definition PRODUCT_404_ERR : string := "Product not found".
Definition INVALID_QUERY_ERR : string := "Invalid query parameter(s)".

(** *** The tables of setup.sql *)

Record product := mkProduct
  { p_name : string; p_price : Z; p_description : string; p_image : string }.

Record macaron_flavor := mkMacaron
  { m_name : string; m_description : string; m_image : string }.

Record product_flavor := mkProductFlavor
  { pf_product : string; pf_flavor : string }.

Record feedback_row := mkFeedback
  { fb_email : string; fb_name : string; fb_message : string }.

Record faq_row := mkFaq
  { faq_question : string; faq_answer : string }.

Record database := mkDatabase
  { products : list product;
    macaron_flavors : list macaron_flavor;
    products_flavors : list product_flavor;
    feedback : list feedback_row;
    faq : list faq_row }.

(** *** Comparison of text columns

    The tables declare no collation, so text is compared under the
    server's default case-insensitive one. *)

Definition ci_char_eqb (c d : ascii) : bool :=
  Ascii.eqb (JS.lower_char c) (JS.lower_char d).

(** [a = b] in a [WHERE] clause. *)
Definition ci_eqb (a b : string) : bool :=
  String.eqb (JS.toLowerCase a) (JS.toLowerCase b).

(** [like_star k s]: some suffix of [s] satisfies [k]; this is what a
    [%] followed by the rest [k] of a pattern accepts. *)
Fixpoint like_star (k : string -> bool) (s : string) : bool :=
  k s || match s with
         | EmptyString => false
         | String _ s' => like_star k s'
         end.

(** [s LIKE p]: [%] stands for any sequence of characters, [_] for any
    single character, a backslash makes the next character literal. *)
Fixpoint like_match (p s : string) {struct p} : bool :=
  match p with
  | EmptyString => match s with EmptyString => true | _ => false end
  | String c p' =>
      if Ascii.eqb c "%" then like_star (like_match p') s
      else if Ascii.eqb c "_" then
        match s with
        | EmptyString => false
        | String _ s' => like_match p' s'
        end
      else if Ascii.eqb c "\" then
        match p' with
        | EmptyString =>
            match s with
            | String d EmptyString => ci_char_eqb c d
            | _ => false
            end
        | String e p'' =>
            match s with
            | EmptyString => false
            | String d s' => ci_char_eqb e d && like_match p'' s'
            end
        end
      else
        match s with
        | EmptyString => false
        | String d s' => ci_char_eqb c d && like_match p' s'
        end
  end.

(** *** Statements sent to the server *)

Inductive order_col := ByName | ByPrice.
Inductive order_dir := Asc | Desc.

Inductive stmt :=
  (** [SELECT * FROM products WHERE name LIKE ?] followed by [likes - 1]
      times [ AND name LIKE ?], then [ ORDER BY col] and [ asc]/[ desc]
      when present *)
  | SelectProductsLike (likes : nat) (ord : option order_col) (dir : option order_dir)
  (** [SELECT * FROM products WHERE name = ?;] *)
  | SelectProduct
  (** [SELECT * FROM products_flavors WHERE product = ?;] *)
  | SelectProductFlavors
  (** [SELECT * FROM macaron_flavors;] *)
  | SelectMacaronFlavors
  (** [SELECT question, answer FROM faq;] *)
  | SelectFaq
  (** [SELECT description FROM products WHERE name=?;] *)
  | SelectDescription
  (** [SELECT name FROM products WHERE name=?;] *)
  | SelectName
  (** [INSERT INTO feedback(name, email, message) VALUES (?, ?, ?);] *)
  | InsertFeedback.

Record exn := mkError { message : string }.

Fixpoint insert_by {A : Type} (le : A -> A -> bool) (x : A) (l : list A) : list A :=
  match l with
  | [] => [x]
  | y :: l' => if le x y then x :: l else y :: insert_by le x l'
  end.

Definition sort_by {A : Type} (le : A -> A -> bool) (l : list A) : list A :=
  fold_right (insert_by le) [] l.

Definition product_le (col : order_col) (dir : order_dir) (a b : product) : bool :=
  match col, dir with
  | ByName, Asc => String.leb (JS.toLowerCase (p_name a)) (JS.toLowerCase (p_name b))
  | ByName, Desc => String.leb (JS.toLowerCase (p_name b)) (JS.toLowerCase (p_name a))
  | ByPrice, Asc => (p_price a <=? p_price b)%Z
  | ByPrice, Desc => (p_price b <=? p_price a)%Z
  end.

(** Rows of [products] whose name matches every pattern, in the requested
    order. A direction without a column ([... LIKE ? asc]) is not SQL, and
    so is a number of values different from the number of [?]. *)
Definition select_products_like (likes : nat) (ord : option order_col)
    (dir : option order_dir) (params : list string) (d : database)
  : list product + exn :=
  if negb (Nat.eqb likes (List.length params)) then
    inr (mkError "ER_PARSE_ERROR")
  else
    let rows :=
      filter (fun p => forallb (fun pat => like_match pat (p_name p)) params)
             (products d) in
    match ord, dir with
    | None, None => inl rows
    | None, Some _ => inr (mkError "ER_PARSE_ERROR")
    | Some col, None => inl (sort_by (product_le col Asc) rows)
    | Some col, Some dr => inl (sort_by (product_le col dr) rows)
    end.

Definition select_product (name : string) (d : database) : list product :=
  filter (fun p => ci_eqb (p_name p) name) (products d).

Definition select_product_flavors (name : string) (d : database) : list product_flavor :=
  filter (fun r => ci_eqb (pf_product r) name) (products_flavors d).

Definition select_description (name : string) (d : database) : list string :=
  map p_description (select_product name d).

Definition select_name (name : string) (d : database) : list string :=
  map p_name (select_product name d).

(** The bounds of the columns of [feedback]: [VARCHAR(255)] for the
    address and the name, [TEXT] for the message. *)
Definition fits_feedback (name email message : string) : bool :=
  (Z.of_nat (String.length email) <=? 255)%Z
  && (Z.of_nat (String.length name) <=? 255)%Z
  && (Z.of_nat (String.length message) <=? 65535)%Z.

(** A value that does not fit its column is refused (the server's default
    strict mode); [email] is the primary key of [feedback]: a second row
    with the same address is refused. *)
Definition insert_feedback (name email message : string) (d : database)
  : database + exn :=
  if negb (fits_feedback name email message) then
    inr (mkError "ER_DATA_TOO_LONG")
  else if existsb (fun r => ci_eqb (fb_email r) email) (feedback d) then
    inr (mkError "ER_DUP_ENTRY")
  else
    inl (mkDatabase (products d) (macaron_flavors d) (products_flavors d)
                    (feedback d ++ [mkFeedback email name message])%list
                    (faq d)).

(** *** Connections *)

Definition conn := nat.

Inductive db_event :=
  | EvConnect (c : conn)
  | EvQuery (c : conn) (q : stmt) (params : list string)
  | EvEnd (c : conn).

(** The server as one request sees it: the tables, the outcome of the
    successive database operations ([true]: the operation fails; past the
    end of the list every operation succeeds), the connections that are
    open and the operations performed so far, oldest first. *)
Record world := mkWorld
  { store : database;
    faults : list bool;
    next_conn : conn;
    open_conns : list conn;
    log : list db_event }.

Definition M (A : Type) : Type := world -> (A + exn) * world.

Definition ret {A : Type} (a : A) : M A := fun w => (inl a, w).

Definition throw {A : Type} (e : exn) : M A := fun w => (inr e, w).

Definition bind {A B : Type} (m : M A) (k : A -> M B) : M B :=
  fun w =>
    match m w with
    | (inl a, w') => k a w'
    | (inr e, w') => (inr e, w')
    end.

Notation "x <- m ;; k" := (bind m (fun x => k))
  (at level 61, m at next level, right associativity).

Definition pop_fault (w : world) : bool * world :=
  match faults w with
  | [] => (false, w)
  | b :: fs => (b, mkWorld (store w) fs (next_conn w) (open_conns w) (log w))
  end.

(** [mysql.createConnection] *)
Definition getDB : M conn :=
  fun w =>
    let (failed, w1) := pop_fault w in
    if failed then (inr (mkError "ECONNREFUSED"), w1)
    else
      let c := next_conn w1 in
      (inl c, mkWorld (store w1) (faults w1) (S c) (c :: open_conns w1)
                      (log w1 ++ [EvConnect c])%list).

(** [db.end()] *)
Definition db_end (c : conn) (w : world) : world :=
  mkWorld (store w) (faults w) (next_conn w)
          (filter (fun c' => negb (Nat.eqb c' c)) (open_conns w))
          (log w ++ [EvEnd c])%list.

(** [db.query(q, params)]: fails when the environment says so or when the
    connection is closed; otherwise the statement runs on the tables. *)
Definition db_query {A : Type} (c : conn) (q : stmt) (params : list string)
    (run : database -> (A * database) + exn) : M A :=
  fun w =>
    let (failed, w1) := pop_fault w in
    let w2 := mkWorld (store w1) (faults w1) (next_conn w1) (open_conns w1)
                      (log w1 ++ [EvQuery c q params])%list in
    if failed then (inr (mkError "PROTOCOL_CONNECTION_LOST"), w2)
    else if negb (existsb (Nat.eqb c) (open_conns w1)) then
      (inr (mkError "PROTOCOL_ENQUEUE_AFTER_QUIT"), w2)
    else
      match run (store w2) with
      | inr e => (inr e, w2)
      | inl (a, d') =>
          (inl a, mkWorld d' (faults w2) (next_conn w2) (open_conns w2) (log w2))
      end.

Definition read_only {A : Type} (f : database -> A) (d : database)
  : (A * database) + exn := inl (f d, d).

(** *** Queries *)

Definition getProductsListFiltered (db : conn) (contains sort direction : string)
  : M (list product) :=
  let words := JS.split "-" contains in
  let likes := 1 + (List.length words - 1) in
  let words := map (fun w => "%" ++ w ++ "%") words in
  let ord := if String.eqb sort "name" then Some ByName
             else if String.eqb sort "price" then Some ByPrice
             else None in
  let dir := if String.eqb direction "asc" then Some Asc
             else if String.eqb direction "desc" then Some Desc
             else None in
  db_query db (SelectProductsLike likes ord dir) words
    (fun d => match select_products_like likes ord dir words d with
              | inl rows => inl (rows, d)
              | inr e => inr e
              end).

Definition getProduct (db : conn) (product : string) : M (list Server.product) :=
  rows <- db_query db SelectProduct [product] (read_only (select_product product)) ;;
  if Nat.eqb (List.length rows) 0 then throw (mkError PRODUCT_404_ERR)
  else ret rows.

Definition getProductFlavors (db : conn) (product : string) : M (list product_flavor) :=
  _ <- getProduct db product ;;
  db_query db SelectProductFlavors [product]
           (read_only (select_product_flavors product)).

Definition getMacaronFlavors (db : conn) : M (list macaron_flavor) :=
  db_query db SelectMacaronFlavors [] (read_only macaron_flavors).

Definition getFAQ (db : conn) : M (list faq_row) :=
  db_query db SelectFaq [] (read_only faq).

Definition getDescription (db : conn) (product : string) : M (list string) :=
  rows <- db_query db SelectDescription [product]
                   (read_only (select_description product)) ;;
  if Nat.eqb (List.length rows) 0 then throw (mkError PRODUCT_404_ERR)
  else ret rows.

Definition recordMessage (db : conn) (name email message : string) : M unit :=
  db_query db InsertFeedback [name; email; message]
           (fun d => match insert_feedback name email message d with
                     | inl d' => inl (tt, d')
                     | inr e => inr e
                     end).

(** *** Requests, responses and the error responder *)

Inductive payload :=
  | Text (s : string)
  | JsonProducts (rows : list product)
  | JsonProduct (row : option product)
  | JsonStrings (l : list string)
  | JsonMacaronFlavors (rows : list macaron_flavor)
  | JsonFaq (rows : list faq_row).

Record response := mkResponse { status : nat; body : payload }.

(** What a middleware does when it is done: [next()], [next(err)] after
    [res.status(code)], or, for an [async] middleware, a rejected promise
    (nothing was sent and [next] was not called). *)
Inductive signal :=
  | Next
  | NextError (code : nat) (err : exn)
  | Rejected (err : exn).

Inductive outcome :=
  | Sent (r : response)
  | Unanswered (err : exn).

(** [errorHandler]: the message as plain text, under the status set
    before [next(err)]. *)
Definition errorHandler (code : nat) (err : exn) : response :=
  mkResponse code (Text (message err)).

Definition server_fault : response := errorHandler 500 (mkError SERVER_ERROR).

Definition not_found_or_fault (err : exn) : response :=
  if String.eqb (message err) PRODUCT_404_ERR then errorHandler 400 err
  else server_fault.

(** The shape shared by the handlers that use the database:
[[
    let db;
    try { db = await getDB(); x = await work(db); db.end(); reply(x); }
    catch (err) { ...; if (db) { db.end(); } next(err); }
]]
    (the two POST handlers reply before [db.end()]). *)
Definition with_db {A : Type} (work : conn -> M A) (reply : A -> response)
    (fail : exn -> response) (w : world) : response * world :=
  match getDB w with
  | (inr err, w1) => (fail err, w1)
  | (inl db, w1) =>
      match work db w1 with
      | (inl x, w2) => (reply x, db_end db w2)
      | (inr err, w2) => (fail err, db_end db w2)
      end
  end.

(** *** Validation middleware

    The parameters of a request are taken here as strings that may be
    missing, which is what the pages of the site send. The validators of
    [GET /products] and [POST /contact-us] on the other values that a
    query or a body can carry are in [Express] below, and agree with these
    on strings. *)

Record products_query := mkQuery
  { q_contains : option string; q_sort : option string; q_direction : option string }.

Definition or_default (v : option string) (d : string) : string :=
  match v with
  | Some s => if JS.truthy v then s else d
  | None => d
  end.

Definition validateProductsQuery (q : products_query) : products_query * signal :=
  let contains := or_default (q_contains q) EmptyString in
  let sort := or_default (q_sort q) "name" in
  let direction := or_default (q_direction q) "asc" in
  let contains := formatDashes contains in
  let sort := JS.toLowerCase sort in
  let direction := JS.toLowerCase direction in
  let q' := mkQuery (Some contains) (Some sort) (Some direction) in
  if (negb (String.eqb sort "name") && negb (String.eqb sort "price"))
     || (negb (String.eqb direction "asc") && negb (String.eqb direction "desc"))
  then (q', NextError 400 (mkError INVALID_QUERY_ERR))
  else (q', Next).

Record desc_body := mkDescBody
  { b_product : option string; b_flavor : option string; b_box : option string }.

Definition text_of (v : option string) : string :=
  match v with Some s => s | None => EmptyString end.

Definition validateDescParams (b : desc_body) (w : world)
  : (desc_body * signal) * world :=
  if negb (JS.truthy (b_product b)) || negb (JS.truthy (b_flavor b))
     || negb (JS.truthy (b_box b))
  then
    ((b, NextError 400
           (mkError "Missing one or more of the required parameters: product, flavor, box.")),
     w)
  else
    let product := formatTitleCase (text_of (b_product b)) in
    let b' := mkDescBody (Some product) (b_flavor b) (b_box b) in
    match getDB w with
    | (inr err, w1) => ((b', Rejected err), w1)
    | (inl db, w1) =>
        match db_query db SelectName [product] (read_only (select_name product)) w1 with
        | (inr err, w2) => ((b', Rejected err), w2)
        | (inl rows, w2) =>
            let w3 := db_end db w2 in
            if Nat.eqb (List.length rows) 0
            then ((b', NextError 400 (mkError PRODUCT_404_ERR)), w3)
            else ((b', Next), w3)
        end
    end.

Record contact_body := mkContactBody
  { b_name : option string; b_email : option string; b_message : option string }.

Definition validateForm (b : contact_body) : signal :=
  if negb (JS.truthy (b_name b)) || negb (JS.truthy (b_email b))
     || negb (JS.truthy (b_message b))
  then NextError 400
         (mkError "Missing one or more of the required parameters: name, email and message.")
  else if negb (JS.includes (text_of (b_email b)) "@")
  then NextError 400 (mkError "Invalid email. Must contain '@'.")
  else Next.

(** *** Endpoints *)

Definition after_middleware (s : signal) (handler : world -> response * world)
    (w : world) : outcome * world :=
  match s with
  | Next => let (r, w') := handler w in (Sent r, w')
  | NextError code err => (Sent (errorHandler code err), w)
  | Rejected err => (Unanswered err, w)
  end.

(** [GET /products] *)
Definition products_handler (q : products_query) : world -> response * world :=
  with_db
    (fun db => getProductsListFiltered db (text_of (q_contains q))
                 (text_of (q_sort q)) (text_of (q_direction q)))
    (fun productsData => mkResponse 200 (JsonProducts productsData))
    (fun _ => server_fault).

Definition get_products (q : products_query) (w : world) : outcome * world :=
  let (q', s) := validateProductsQuery q in
  after_middleware s (products_handler q') w.

(** [GET /products/:product]; [name] is [req.params.product], the path
    segment as the router hands it over, already decoded. *)
Definition get_product (name : string) (w : world) : outcome * world :=
  after_middleware Next
    (with_db (fun db => getProduct db (formatTitleCase name))
             (fun rows => mkResponse 200 (JsonProduct (hd_error rows)))
             not_found_or_fault) w.

(** [GET /flavors/:product] *)
Definition get_flavors (name : string) (w : world) : outcome * world :=
  after_middleware Next
    (with_db (fun db => getProductFlavors db (formatTitleCase name))
             (fun rows => mkResponse 200 (JsonStrings (map pf_flavor rows)))
             not_found_or_fault) w.

(** [GET /macaron-flavors] *)
Definition get_macaron_flavors (w : world) : outcome * world :=
  after_middleware Next
    (with_db getMacaronFlavors
             (fun rows => mkResponse 200 (JsonMacaronFlavors rows))
             (fun _ => server_fault)) w.

(** [GET /faq] *)
Definition get_faq (w : world) : outcome * world :=
  after_middleware Next
    (with_db getFAQ (fun rows => mkResponse 200 (JsonFaq rows))
             (fun _ => server_fault)) w.

(** [POST /custom-description] *)
Definition custom_description_handler (b : desc_body) : world -> response * world :=
  with_db
    (fun db => getDescription db (text_of (b_product b)))
    (fun rows =>
       let desc := JS.split " " (hd EmptyString rows) in
       let desc := JS.splice_insert desc 2 (text_of (b_flavor b)) in
       let desc := JS.splice_insert desc (-1) (text_of (b_box b)) in
       mkResponse 200 (Text (JS.join " " desc)))
    (fun _ => server_fault).

Definition post_custom_description (b : desc_body) (w : world) : outcome * world :=
  let '((b', s), w1) := validateDescParams b w in
  after_middleware s (custom_description_handler b') w1.

(** [POST /contact-us] *)
Definition contact_us_handler (b : contact_body) : world -> response * world :=
  with_db
    (fun db => recordMessage db (text_of (b_name b)) (text_of (b_email b))
                 (text_of (b_message b)))
    (fun _ => mkResponse 200 (Text "Message successfully submitted! Thank you!"))
    (fun _ => server_fault).

Definition post_contact_us (b : contact_body) (w : world) : outcome * world :=
  after_middleware (validateForm b) (contact_us_handler b) w.

(** A request starts with no connection of its own. *)
Definition fresh (d : database) (fs : list bool) : world :=
  mkWorld d fs 0 [] [].

End Server.

(** ** Request values

    [Server] takes the parameters of a request as strings that may be
    missing. The parsers deliver more: a repeated query key arrives as an
    array, a bracketed key as an object, and a JSON body carries numbers,
    booleans and [null]. This module gives the two synchronous validators
    on such values. A method of String called on a value that does not
    have it throws a TypeError inside the middleware; the router hands the
    error to [errorHandler], and the status of the response, which nobody
    has set, is 200. *)

Module Express.

Import Server.

#[local] Unset Elimination Schemes.

Inductive value :=
  | VString (s : string)
  | VNumber (n : Z)
  | VBool (b : bool)
  | VNull
  | VArray (items : list value)
  | VObject (fields : list (string * value)).

#[local] Set Elimination Schemes.

(** [!v] is false: [v] is given and is none of the empty string, zero,
    [false] and [null]. *)
Definition truthy (v : option value) : bool :=
  match v with
  | None => false
  | Some (VString s) => JS.truthy (Some s)
  | Some (VNumber n) => negb (Z.eqb n 0)
  | Some (VBool b) => b
  | Some VNull => false
  | Some (VArray _) => true
  | Some (VObject _) => true
  end.

(** A call either returns or throws. *)
Inductive result (A : Type) :=
  | Returned (a : A)
  | Thrown (err : exn).

Arguments Returned {A} a.
Arguments Thrown {A} err.

(** The TypeError of [callee(...)] when [callee] is [undefined] or any
    other value that is not a function. *)
Definition not_a_function (callee : string) : exn :=
  mkError (callee ++ " is not a function").

(** The TypeError of a property read on [null]. *)
Definition no_properties (property : string) : exn :=
  mkError ("Cannot read properties of null (reading '" ++ property ++ "')").

(** [formatDashes(name)]: its first call is [name.split], a method of
    strings only. *)
Definition formatDashes (name : value) : result string :=
  match name with
  | VString s => Returned (formatDashes s)
  | VNull => Thrown (no_properties "split")
  | _ => Thrown (not_a_function "name.split")
  end.

(** [receiver.toLowerCase()], [receiver] being the text of the call in the
    source. *)
Definition toLowerCase (receiver : string) (v : value) : result string :=
  match v with
  | VString s => Returned (JS.toLowerCase s)
  | VNull => Thrown (no_properties "toLowerCase")
  | _ => Thrown (not_a_function (receiver ++ ".toLowerCase"))
  end.

(** [req.query] of [GET /products]. *)
Record query := mkQuery
  { contains : option value; sort : option value; direction : option value }.

Definition or_default (v : option value) (d : string) : value :=
  match v with
  | Some x => if truthy v then x else VString d
  | None => VString d
  end.

(** [validateProductsQuery]: on return, the rewritten query and the call
    of [next]. *)
Definition validateProductsQuery (q : query) : result (products_query * signal) :=
  let contains := or_default (contains q) EmptyString in
  let sort := or_default (sort q) "name" in
  let direction := or_default (direction q) "asc" in
  match formatDashes contains with
  | Thrown err => Thrown err
  | Returned contains =>
      match toLowerCase "req.query.sort" sort with
      | Thrown err => Thrown err
      | Returned sort =>
          match toLowerCase "req.query.direction" direction with
          | Thrown err => Thrown err
          | Returned direction =>
              let q' := Server.mkQuery (Some contains) (Some sort) (Some direction) in
              if (negb (String.eqb sort "name") && negb (String.eqb sort "price"))
                 || (negb (String.eqb direction "asc")
                     && negb (String.eqb direction "desc"))
              then Returned (q', NextError 400 (mkError INVALID_QUERY_ERR))
              else Returned (q', Next)
          end
      end
  end.

(** [GET /products] *)
Definition get_products (q : query) (w : world) : outcome * world :=
  match validateProductsQuery q with
  | Thrown err => (Sent (errorHandler 200 err), w)
  | Returned (q', s) => after_middleware s (products_handler q') w
  end.

(** [req.body] of [POST /contact-us]. *)
Record body := mkBody
  { name : option value; email : option value; message : option value }.

(** [req.body.email.includes("@")], called on a truthy value: a method of
    strings and of arrays. *)
Definition includes_at (email : option value) : result bool :=
  match email with
  | Some (VString s) => Returned (JS.includes s "@")
  | Some (VArray items) =>
      Returned (existsb (fun v => match v with
                                  | VString s => String.eqb s "@"
                                  | _ => false
                                  end) items)
  | Some VNull => Thrown (no_properties "includes")
  | _ => Thrown (not_a_function "req.body.email.includes")
  end.

Definition validateForm (b : body) : result signal :=
  if negb (truthy (name b)) || negb (truthy (email b)) || negb (truthy (message b))
  then Returned
         (NextError 400
            (mkError "Missing one or more of the required parameters: name, email and message."))
  else match includes_at (email b) with
       | Thrown err => Thrown err
       | Returned false => Returned (NextError 400 (mkError "Invalid email. Must contain '@'."))
       | Returned true => Returned Next
       end.

(** [POST /contact-us], up to its handler: [handler] is what the route
    does once [validateForm] has called [next()]. *)
Definition post_contact_us (b : body) (handler : world -> response * world)
    (w : world) : outcome * world :=
  match validateForm b with
  | Thrown err => (Sent (errorHandler 200 err), w)
  | Returned s => after_middleware s handler w
  end.

End Express.

(** ** The catalog seeded by setup.sql

    Line breaks are those of the script; [10.25] and [3.5] are stored in
    the [INT] column as [10] and [4]. *)

Module Seed.

Import Server.

Definition seed_products : list product :=
  [
    mkProduct "Cheesecake" 7
      "One homemade cheesecake, four inches in diameter. Each cheesecake is
 packaged in a beautiful handcrafted box."
      "imgs/cheesecake-original.jpg";
    mkProduct "Macarons (6 pcs)" 10
      "Six homemade macarons, freshly baked. Each set is packaged in
 a beautiful handcrafted box."
      "imgs/macarons-6pcs.jpg";
    mkProduct "Macarons (12 pcs)" 20
      "Twelve homemade macarons, freshly baked. Each set is packaged in
 a beautiful handcrafted box."
      "imgs/macarons-12pcs.jpg";
    mkProduct "Mini Palmiers" 8
      "Ten homemade palmiers made from flaky, buttery puff pastry. Each set
 is packaged in a beautiful handcrafted box."
      "imgs/mini-palmiers.jpg";
    mkProduct "Imperfect Macarons" 7
      "Six homemade macarons that have visual imperfections such
 as cracks in the shell. Still taste delicious! Each set is packaged in a beautiful handcrafted
 box."
      "imgs/imperfect-macarons.jpg";
    mkProduct "Wagashi" 4
      "One homemade wagashi, freshly made. Wagashi are traditional Japanese confections
  made with sweet bean paste. At Petite Treats, we shape our wagashi by hand into creative
  designs and fill them with flavored mochi. Each wagashi is packaged in a beautiful handcrafted
  box."
      "imgs/wagashi.jpg";
    mkProduct "Cookies" 2
      "Three homemade cookies, freshly baked. Each set is packaged in
 a beautiful handcrafted box."
      "imgs/cookies.jpg";
    mkProduct "Brownies" 2
      "Two homemade brownies, freshly baked. Each set is packaged in
 a beautiful handcrafted box."
      "imgs/brownies.jpg";
    mkProduct "Cake Pops" 2
      "Three homemade cake pops, freshly baked. Each set is packaged in
 a beautiful handcrafted box."
      "imgs/cake-pops.jpg";
    mkProduct "Truffles" 5
      "Six homemade truffles made from high quality chocolate. Each set is packaged in
 a beautiful handcrafted box."
      "imgs/truffles.jpg";
    mkProduct "Rice Krispies" 2
      "Two homemade Rice Krispy treats, freshly baked. Each set is packaged in
 a beautiful handcrafted box."
      "imgs/rice-krispies.jpg";
    mkProduct "Sweet Bread" 5
      "One homemade sweet bread, freshly baked. Each sweet bread is packaged in
 a beautiful handcrafted box."
      "imgs/sweet-bread.jpg";
    mkProduct "Cupcakes" 3
      "Four homemade cupcakes, freshly baked. Each set is packaged in
 a beautiful handcrafted box."
      "imgs/cupcakes.jpg";
    mkProduct "Cake" 10
      "One homemade cake, freshly baked. Each cake is packaged in
 a beautiful handcrafted box."
      "imgs/cake.jpg";
    mkProduct "Pie" 10
      "One homemade pie, six inches in diameter. Each pie is packaged in
 a beautiful handcrafted box."
      "imgs/pie.jpg"
  ].

(** The seeded catalog, the other tables left empty. *)
Definition catalog : database := mkDatabase seed_products [] [] [] [].

End Seed.

(** ** The featured section of the home page *)

Module Home.

Import Server.

(** The card built by [createCard]: heading, price, image and description. *)
Record card := mkCard
  { card_heading : string;
    card_price : string;
    card_img_src : string;
    card_img_alt : string;
    card_description : string }.

Definition createCard (product : Server.product) : card :=
  mkCard (p_name product)
         ("$" ++ JS.toFixed2 (p_price product))
         (p_image product)
         (p_name product)
         (p_description product).

(** What the page does, in order: a request is issued (and awaited), a
    card is appended to the featured section. *)
Inductive event :=
  | Fetch (url : string)
  | Append (c : card).

Record page := mkPage
  { results : string;        (* text of #results *)
    featured : list card;    (* children of #featured *)
    trace : list event }.

(** The network as the page sees it. [None] stands for every way in
    which a request can fail before its data is usable: the fetch itself,
    a status that [checkStatus] refuses, a body that is not the expected
    JSON. *)
Record network := mkNetwork
  { featured_names : option string;             (* GET /featured *)
    product_details : string -> option product  (* GET /products/:name, by URL *) }.

Definition BASE_URL : string := "/".

Definition handleRequestError (pg : page) : page :=
  mkPage "There was an error loading the data. Please try again later."
         (featured pg) (trace pg).

(** The body of the [for] loop of [initializeFeatured], from the current
    name on; [inr] is the page at the moment an exception is thrown. *)
Fixpoint fetch_cards (net : network) (names : list string) (pg : page)
  : page + page :=
  match names with
  | [] => inl pg
  | name :: rest =>
      let url := BASE_URL ++ "products/" ++ formatDashes name in
      let pg1 := mkPage (results pg) (featured pg) (trace pg ++ [Fetch url])%list in
      match product_details net url with
      | None => inr pg1
      | Some productJson =>
          let card := createCard productJson in
          fetch_cards net rest
            (mkPage (results pg1) (featured pg1 ++ [card])%list
                    (trace pg1 ++ [Append card])%list)
      end
  end.

Definition initializeFeatured (net : network) (pg : page) : page :=
  let pg0 := mkPage "Response Loading..." (featured pg) (trace pg) in
  let pg1 := mkPage (results pg0) (featured pg0)
                    (trace pg0 ++ [Fetch (BASE_URL ++ "featured")])%list in
  match featured_names net with
  | None => handleRequestError pg1
  | Some featuredText =>
      let featuredText := JS.split "010" (JS.trim featuredText) in
      match fetch_cards net featuredText pg1 with
      | inl pg2 => mkPage EmptyString (featured pg2) (trace pg2)
      | inr pg2 => handleRequestError pg2
      end
  end.

End Home.

(** ** The cart: adding on the products page, listing and removing on
    the cart page (cart.js) *)

Module Cart.

Record customization := mkCustomization { flavor : string; box : string }.

Record item := mkItem
  { name : string; price : Z; customizations : list customization }.

(** Session storage under the key [cart]: [None] when the key is absent,
    otherwise the array that [JSON.parse] gives back. *)
Definition storage := option (list item).

(** The loop shared by [updateCart] and [removeItem]:
[[
    for (let i = 0; i < cart.length; i++) {
      if (cart[i].name === name) { item = cart.splice(i, 1)[0]; }
    }
]]
    [cart.length] is read again at each turn and [i] moves on after a
    splice. [removeItem] does not keep the spliced item. At most
    [cart.length] turns are taken, which is the fuel [splice_named] gives. *)
Fixpoint splice_loop (fuel : nat) (nm : string) (i : nat) (cart : list item)
    (found : option item) : list item * option item :=
  match fuel with
  | O => (cart, found)
  | S fuel' =>
      match nth_error cart i with
      | None => (cart, found)
      | Some x =>
          if String.eqb (name x) nm
          then splice_loop fuel' nm (S i) (JS.splice_delete cart i) (Some x)
          else splice_loop fuel' nm (S i) cart found
      end
  end.

Definition splice_named (nm : string) (cart : list item) : list item * option item :=
  splice_loop (List.length cart) nm 0 cart None.

(** *** Adding ([addCart] and [updateCart] of the products page) *)

(** The single-item view when "Add To Cart" is clicked: the parsed value
    of [#qty-input] ([None] for [NaN]), the text of [#product-name], the
    values of the two selects and the parsed price of [#single-view-price]. *)
Record view := mkView
  { qty_input : option Z;
    product_name : string;
    flavor_select : string;
    box_select : string;
    single_view_price : Z }.

Definition qty_min : Z := 1.
Definition qty_max : Z := 10.

Definition updateCart (v : view) (cart : list item) : list item :=
  let qty := match qty_input v with Some q => q | None => 0%Z end in
  let nm := product_name v in
  let customs := mkCustomization (formatTitleCase (flavor_select v))
                                 (formatTitleCase (box_select v)) in
  let (cart, found) := splice_named nm cart in
  let item := match found with
              | Some it => it
              | None => mkItem nm (single_view_price v) []
              end in
  let item := mkItem (name item) (price item)
                     (customizations item ++ repeat customs (Z.to_nat qty))%list in
  (cart ++ [item])%list.

(** [addCart]: nothing happens unless the quantity is a number between the
    bounds of the input. *)
Definition addCart (v : view) (st : storage) : storage :=
  match qty_input v with
  | None => st
  | Some qty =>
      if (qty <? qty_min)%Z || (qty >? qty_max)%Z || (qty =? 0)%Z then st
      else
        let cart := match st with Some c => c | None => [] end in
        Some (updateCart v cart)
  end.

(** *** Listing and removing (cart.js) *)

(** A rendered line item: the text node of the [li], the amount shown in
    its [span] and the texts of the entries of its [ul]. *)
Record line := mkLine
  { line_label : string; line_amount : Z; line_customs : list string }.

(** The cart page: session storage, the numbers shown in [#cart-count] and
    [#total-price], and the children of [#cart]. *)
Record page := mkPage
  { stored : storage; cart_count : Z; total_price : Z; lines : list line }.

(** [textContent] of a rendered line: its own text, the span, the button
    and the entries. *)
Definition textContent (l : line) : string :=
  line_label l ++ JS.toFixed2 (line_amount l) ++ "X"
  ++ String.concat EmptyString (line_customs l).

Definition custom_text (c : customization) : string :=
  "Flavor: " ++ flavor c ++ String "010" ("Box Decoration: " ++ box c).

Definition createItem (it : item) (pg : page) : line * page :=
  let label := JS.string_of_nat (List.length (customizations it))
               ++ " " ++ name it ++ " - $" in
  let items := customizations it in
  let count := fold_left (fun n _ => (n + 1)%Z) items (cart_count pg) in
  let totalItemPrice := fold_left (fun t _ => (t + price it)%Z) items 0%Z in
  (mkLine label totalItemPrice (map custom_text items),
   mkPage (stored pg) count (total_price pg + totalItemPrice)%Z (lines pg)).

Definition initializeCart (pg : page) : page :=
  match stored pg with
  | None => pg
  | Some cart =>
      fold_left (fun pg it =>
                   let (l, pg') := createItem it pg in
                   mkPage (stored pg') (cart_count pg') (total_price pg')
                          (lines pg' ++ [l])%list)
                cart pg
  end.

(** [removeItem] for the button of the [k]-th rendered line. *)
Definition removeItem (k : nat) (pg : page) : page :=
  match nth_error (lines pg) k with
  | None => pg
  | Some li =>
      match stored pg with
      | None => pg
      | Some cart =>
          let nm := textContent li in
          let nm := JS.slice nm (JS.indexOf nm " " + 1) (JS.indexOf nm " - ") in
          let cart := fst (splice_named nm cart) in
          mkPage (Some cart)
                 (cart_count pg - Z.of_nat (List.length (line_customs li)))
                 (total_price pg - line_amount li)
                 (JS.splice_delete (lines pg) k)
      end
  end.

Definition clearCart (pg : page) : page := mkPage (Some []) 0 0 [].

End Cart.

(** ** The endpoints that read a file (app.js) *)

Module Files.

Import Server.

(** The body of [GET /featured] and of [GET /box-decorations]: the lines
    of the file, each one through [formatTitleCase], joined again. *)
Definition title_lines (contents : string) : string :=
  let lines := JS.split "010" contents in
  let lines := map formatTitleCase lines in
  JS.join (String "010" EmptyString) lines.

(** [GET /featured]; [None] when [fs.readFile] fails on featured.txt. *)
Definition get_featured (file : option string) : response :=
  match file with
  | Some contents => mkResponse 200 (Text (title_lines contents))
  | None => server_fault
  end.

(** [GET /box-decorations]; [None] when [fs.readFile] fails on
    box-decorations.txt. *)
Definition get_box_decorations (file : option string) : response :=
  match file with
  | Some contents => mkResponse 200 (Text (title_lines contents))
  | None => server_fault
  end.

End Files.

(** ** The routes that use the database (app.js) *)

Module Api.

Import Server.

Inductive request :=
  | GetProducts (q : products_query)
  | GetProduct (name : string)
  | GetFlavors (name : string)
  | GetMacaronFlavors
  | GetFaq
  | PostCustomDescription (b : desc_body)
  | PostContactUs (b : contact_body).

(** The route table: [app.get] and [app.post] with their middleware. *)
Definition serve (req : request) (w : world) : outcome * world :=
  match req with
  | GetProducts q => get_products q w
  | GetProduct name => get_product name w
  | GetFlavors name => get_flavors name w
  | GetMacaronFlavors => get_macaron_flavors w
  | GetFaq => get_faq w
  | PostCustomDescription b => post_custom_description b w
  | PostContactUs b => post_contact_us b w
  end.

End Api.

(** ** The contact form of the home page *)

Module ContactForm.

(** A response as [fetch] gives it to the page. *)
Record http_response := mkHttp { http_status : nat; http_text : string }.

Definition ok (r : http_response) : bool :=
  (200 <=? http_status r)%nat && (http_status r <=? 299)%nat.

(** [checkStatus] of the home page: the text of a 400 answer is the
    message of the error, any other refusal gets a fixed message. *)
Definition checkStatus (response : http_response) : http_response + string :=
  if negb (ok response) then
    let msg := "The server encountered an error. Please try again later." in
    let msg := if Nat.eqb (http_status response) 400 then http_text response
               else msg in
    inr msg
  else inl response.

(** The part of the page that [submitForm] touches: the text of
    [#confirmation] and the fields of [#contact-form]. *)
Record form := mkForm
  { field_name : string; field_email : string; field_message : string }.

Record page := mkPage { confirmation : string; contact_form : form }.

(** [submitForm]. [send] is the request [POST /contact-us] with the
    fields of the form: [inr msg] when [fetch] itself fails with an error
    of message [msg]. [blank] is the form as [reset()] leaves it. *)
Definition submitForm (send : form -> http_response + string) (blank : form)
    (pg : page) : page :=
  match send (contact_form pg) with
  | inr msg => mkPage msg (contact_form pg)
  | inl resp =>
      match checkStatus resp with
      | inr msg => mkPage msg (contact_form pg)
      | inl resp => mkPage (http_text resp) blank
      end
  end.

(** The fields as the server receives them: every field of the form is
    present in the body, possibly empty. *)
Definition body_of (f : form) : Server.contact_body :=
  Server.mkContactBody (Some (field_name f)) (Some (field_email f))
                       (Some (field_message f)).

(** A text answer of the server on the wire. *)
Definition on_wire (r : Server.response) : http_response :=
  mkHttp (Server.status r)
         (match Server.body r with Server.Text s => s | _ => EmptyString end).

End ContactForm.

(** * Reference definitions

    The notions of the specification, to be compared with the code, and
    the auxiliary notions in which the properties are stated. *)

Module Ref.

(** What the claim says [formatDashes] does, character by character:
    a space becomes a dash, any other character is lowercased. *)
Definition dash_char (c : ascii) : ascii :=
  if Ascii.eqb c " " then "-"%char else JS.lower_char c.

Fixpoint dash_lower (s : string) : string :=
  match s with
  | EmptyString => EmptyString
  | String c s' => String (dash_char c) (dash_lower s')
  end.

(** The words of [ws], lowercased and joined by dashes. *)
Definition dashed (ws : list string) : string :=
  JS.toLowerCase (hd EmptyString ws)
  ++ fold_right (fun w t => "-" ++ JS.toLowerCase w ++ t) EmptyString (tl ws).

(** Case-insensitive "[tok] appears as a substring of [name]". *)
Definition ci_includes (name tok : string) : bool :=
  JS.includes (JS.toLowerCase name) (JS.toLowerCase tok).

(** The filter of the specification: every dash-separated token of
    [contains] appears in the name, ignoring case. *)
Definition matches_filter (contains name : string) : bool :=
  forallb (ci_includes name) (JS.split "-" contains).

(** Characters that [LIKE] does not take literally. *)
Definition like_special (c : ascii) : bool :=
  Ascii.eqb c "%" || Ascii.eqb c "_" || Ascii.eqb c "\".

Fixpoint all_chars (P : ascii -> bool) (s : string) : bool :=
  match s with
  | EmptyString => true
  | String c s' => P c && all_chars P s'
  end.

Definition literal (s : string) : bool :=
  all_chars (fun c => negb (like_special c)) s.

(** A text of ASCII characters: the texts on which the case mapping of the
    embedding is the one of JavaScript, and the comparison of the tables
    the one of MySQL. *)
Definition ascii_text (s : string) : bool := all_chars JS.is_ascii s.

(** A connection that is open and a next operation that does not fail. *)
Definition usable (db : Server.conn) (w : Server.world) : Prop :=
  existsb (Nat.eqb db) (Server.open_conns w) = true
  /\ hd false (Server.faults w) = false.

(** The sort key and direction that validation lets through. *)
Definition valid_order (sort direction : string) : Prop :=
  (sort = "name" \/ sort = "price") /\ (direction = "asc" \/ direction = "desc").

(** A textual parameter that may be missing: when it is not given, or
    given empty, it takes the default [d]. *)
Definition given (v : option string) (d : string) : string :=
  match v with
  | Some (String c s) => String c s
  | _ => d
  end.

(** A field of a body that counts as given: it is there, and it is none
    of the empty string, zero, [false] and [null]. *)
Definition filled (v : option Express.value) : Prop :=
  match v with
  | None => False
  | Some (Express.VString s) => s <> EmptyString
  | Some (Express.VNumber n) => n <> 0%Z
  | Some (Express.VBool b) => b = true
  | Some Express.VNull => False
  | Some (Express.VArray _) => True
  | Some (Express.VObject _) => True
  end.

(** [s] has the character [c]. *)
Definition has_char (c : ascii) (s : string) : Prop :=
  exists a b, s = a ++ String c b.

(** What [includes("@")] looks for: an [@] in a string, the element
    ["@"] in an array. *)
Definition has_at (v : option Express.value) : Prop :=
  match v with
  | Some (Express.VString s) => has_char "@" s
  | Some (Express.VArray items) => In (Express.VString "@") items
  | _ => False
  end.

(** The values that have a method [includes]: strings and arrays. *)
Definition has_includes (v : option Express.value) : Prop :=
  match v with
  | Some (Express.VString _) => True
  | Some (Express.VArray _) => True
  | _ => False
  end.

(** The body of a form whose three fields are strings. *)
Definition text_body (name email message : string) : Express.body :=
  Express.mkBody (Some (Express.VString name)) (Some (Express.VString email))
                 (Some (Express.VString message)).

(** The query of a request whose three parameters are single strings, or
    missing. *)
Definition text_query (contains sort direction : option string) : Express.query :=
  Express.mkQuery (option_map Express.VString contains)
                  (option_map Express.VString sort)
                  (option_map Express.VString direction).

(** A computation that neither opens nor closes a connection. *)
Definition keeps_connections {A : Type} (m : Server.M A) : Prop :=
  forall w, Server.open_conns (snd (m w)) = Server.open_conns w.

(** The connections left open once a request has been handled. *)
Definition left_open {A : Type} (run : A * Server.world) : list Server.conn :=
  Server.open_conns (snd run).

(** The address of the detail request for a featured name. *)
Definition detail_url (name : string) : string :=
  Home.BASE_URL ++ "products/" ++ formatDashes name.

(** The names of a [/featured] response, in order. *)
Definition names_of (featuredText : string) : list string :=
  JS.split "010" (JS.trim featuredText).

(** [details net names ps]: the detail request of each name succeeds,
    with the products [ps] in the same order. *)
Definition details (net : Home.network) (names : list string)
    (ps : list Server.product) : Prop :=
  Forall2 (fun n p => Home.product_details net (detail_url n) = Some p) names ps.

(** One request, then one card, for each name in turn: a request is
    issued only after the card of the previous name is in place. *)
Definition sequential_pass (names : list string) (ps : list Server.product)
  : list Home.event :=
  flat_map (fun np => [Home.Fetch (detail_url (fst np));
                       Home.Append (Home.createCard (snd np))])
           (combine names ps).

Definition error_text : string :=
  "There was an error loading the data. Please try again later.".

(** The second half of the claim on the featured section as it is
    worded: a failed detail request leaves no card of the pass on the
    page. *)
Definition no_partial_rendering : Prop :=
  forall (net : Home.network) (pg : Home.page) (text : string),
    Home.featured_names net = Some text ->
    (exists n, In n (names_of text)
               /\ Home.product_details net (detail_url n) = None) ->
    Home.featured (Home.initializeFeatured net pg) = Home.featured pg.

(** *** The cart *)

Definition named (nm : string) (x : Cart.item) : bool := String.eqb (Cart.name x) nm.

Definition other (nm : string) (x : Cart.item) : bool := negb (named nm x).

(** The loop of [Cart.splice_loop] read along the array: after a splice
    the element that slides into the freed slot is stepped over. *)
Fixpoint scan (nm : string) (l : list Cart.item) (found : option Cart.item)
  : list Cart.item * option Cart.item :=
  match l with
  | [] => ([], found)
  | x :: rest =>
      if named nm x then
        match rest with
        | [] => ([], Some x)
        | y :: rest' =>
            let (r, f) := scan nm rest' (Some x) in (y :: r, f)
        end
      else
        let (r, f) := scan nm rest found in (x :: r, f)
  end.

(** An "Add To Cart" click goes through when the quantity is a number
    between 1 and 10. *)
Definition accepted (v : Cart.view) : bool :=
  match Cart.qty_input v with
  | Some q => (1 <=? q)%Z && (q <=? 10)%Z
  | None => false
  end.

Definition quantity (v : Cart.view) : nat :=
  match Cart.qty_input v with Some q => Z.to_nat q | None => 0 end.

(** Total quantity added for the product [nm] by a sequence of clicks. *)
Fixpoint added (nm : string) (clicks : list Cart.view) : nat :=
  match clicks with
  | [] => 0
  | v :: rest =>
      (if accepted v && String.eqb (Cart.product_name v) nm then quantity v else 0)
      + added nm rest
  end.

(** Session storage after a sequence of clicks, from a given content. *)
Definition after_clicks (clicks : list Cart.view) (st : Cart.storage) : Cart.storage :=
  fold_left (fun st v => Cart.addCart v st) clicks st.

Definition cart_of (st : Cart.storage) : list Cart.item :=
  match st with Some c => c | None => [] end.

(** Units of the product [nm] held by a cart. *)
Definition units (nm : string) (cart : list Cart.item) : nat :=
  match find (named nm) cart with
  | Some it => List.length (Cart.customizations it)
  | None => 0
  end.

Definition chosen (v : Cart.view) : Cart.customization :=
  Cart.mkCustomization (formatTitleCase (Cart.flavor_select v))
                       (formatTitleCase (Cart.box_select v)).

(** The line item that [updateCart] appends: the one it found, or a new
    one, with as many copies of the chosen customization as the quantity. *)
Definition merged (v : Cart.view) (found : option Cart.item) : Cart.item :=
  let it := match found with
            | Some it => it
            | None => Cart.mkItem (Cart.product_name v) (Cart.single_view_price v) []
            end in
  Cart.mkItem (Cart.name it) (Cart.price it)
              (Cart.customizations it ++ repeat (chosen v) (quantity v))%list.

(** *** The cart page *)

(** The rendered line of a line item, as [createItem] builds it. *)
Definition rendered (it : Cart.item) : Cart.line :=
  Cart.mkLine
    (JS.string_of_nat (List.length (Cart.customizations it))
       ++ " " ++ Cart.name it ++ " - $")
    (Z.of_nat (List.length (Cart.customizations it)) * Cart.price it)
    (map Cart.custom_text (Cart.customizations it)).

(** The name that [removeItem] reads back from a rendered line. *)
Definition parsed_name (li : Cart.line) : string :=
  let text := Cart.textContent li in
  JS.slice text (JS.indexOf text " " + 1) (JS.indexOf text " - ").

(** The cart page once [initializeCart] has listed the stored cart, the
    counters showing [c0] and [t0] before. *)
Definition listed (cart : list Cart.item) (c0 t0 : Z) : Cart.page :=
  Cart.initializeCart (Cart.mkPage (Some cart) c0 t0 []).

(** Clicking the button of the [k]-th line, which shows [it]: the name is
    read back, the line item leaves session storage and the page, the
    count goes down by its number of customizations and the total by the
    amount it shows. *)
Definition removes_line (cart : list Cart.item) (c0 t0 : Z) (k : nat)
    (it : Cart.item) : Prop :=
  let pg := listed cart c0 t0 in
  nth_error (Cart.lines pg) k = Some (rendered it)
  /\ parsed_name (rendered it) = Cart.name it
  /\ Cart.removeItem k pg
     = Cart.mkPage (Some (JS.splice_delete cart k))
         (Cart.cart_count pg - Z.of_nat (List.length (Cart.customizations it)))
         (Cart.total_price pg
          - Z.of_nat (List.length (Cart.customizations it)) * Cart.price it)
         (JS.splice_delete (Cart.lines pg) k).

(** The condition on names of the claim: no [" - "] inside and no leading
    space. *)
Definition claimed_name (nm : string) : bool :=
  negb (JS.includes nm " - ") && negb (String.prefix " " nm).

(** The condition under which the name is read back: no [" - "] in the
    name put between two spaces, that is, none inside the name, no
    leading ["- "], no trailing [" -"], and the name is not ["-"]. *)
Definition readable_name (nm : string) : bool :=
  negb (JS.includes (" " ++ nm ++ " ") " - ").

(** The claim on [removeItem] as it is worded. *)
Definition remove_claim : Prop :=
  forall (cart : list Cart.item) (c0 t0 : Z) (k : nat) (it : Cart.item),
    NoDup (map Cart.name cart) ->
    forallb (fun x => claimed_name (Cart.name x)) cart = true ->
    nth_error cart k = Some it ->
    removes_line cart c0 t0 k it.

(** *** Further notions *)

(** [formatTitleCase] read along the string: a dash becomes a space and
    the character that starts a word is uppercased. *)
Fixpoint title_case (start : bool) (s : string) : string :=
  match s with
  | EmptyString => EmptyString
  | String c s' =>
      if Ascii.eqb c "-" then String " " (title_case true s')
      else String (if start then JS.upper_char c else c) (title_case false s')
  end.

(** The words [ws], the first one capitalized when [start] holds and all
    the following ones capitalized, joined by spaces. *)
Definition titled (start : bool) (ws : list string) : string :=
  (if start then JS.capitalize (hd EmptyString ws) else hd EmptyString ws)
  ++ fold_right (fun w t => " " ++ JS.capitalize w ++ t) EmptyString (tl ws).

(** [s] has no character [c]. *)
Definition without (c : ascii) (s : string) : bool :=
  all_chars (fun x => negb (Ascii.eqb x c)) s.

(** A name written in title case: words separated by spaces, no dash, no
    lowercase letter at the start of a word and no uppercase letter after
    it. *)
Fixpoint title_cased (start : bool) (s : string) : bool :=
  match s with
  | EmptyString => true
  | String c s' =>
      if Ascii.eqb c " " then title_cased true s'
      else negb (Ascii.eqb c "-")
           && (if start then negb (JS.is_lower c) else negb (JS.is_upper c))
           && title_cased false s'
  end.

(** Units and amount of a whole cart. *)
Definition total_units (cart : list Cart.item) : Z :=
  fold_right (fun it n => (Z.of_nat (List.length (Cart.customizations it)) + n)%Z)
             0%Z cart.

Definition total_amount (cart : list Cart.item) : Z :=
  fold_right (fun it n =>
                (Z.of_nat (List.length (Cart.customizations it)) * Cart.price it + n)%Z)
             0%Z cart.

(** The world once [getDB] has succeeded in a world without failures. *)
Definition connected (w : Server.world) : Server.world :=
  Server.mkWorld (Server.store w) [] (S (Server.next_conn w))
                 (Server.next_conn w :: Server.open_conns w)
                 (Server.log w ++ [Server.EvConnect (Server.next_conn w)])%list.

(** The world after one more query on connection [c]. *)
Definition queried (c : Server.conn) (q : Server.stmt) (ps : list string)
    (w : Server.world) : Server.world :=
  Server.mkWorld (Server.store w) [] (Server.next_conn w) (Server.open_conns w)
                 (Server.log w ++ [Server.EvQuery c q ps])%list.



Definition first_satisfies (P : ascii -> bool) (s : string) : bool :=
  match s with
  | EmptyString => false
  | String c _ => P c
  end.

Fixpoint last_satisfies (P : ascii -> bool) (s : string) : bool :=
  match s with
  | EmptyString => false
  | String c EmptyString => P c
  | String _ s' => last_satisfies P s'
  end.

Definition not_space (c : ascii) : bool := negb (JS.is_space c).

(** An address of ASCII characters that does not end with a space: two
    such addresses are the same key of [feedback] exactly when they are
    equal up to the case of their letters. *)
Definition plain_address (s : string) : bool :=
  ascii_text s && negb (last_satisfies (fun c => Ascii.eqb c " ") s).

Definition not_dash (c : ascii) : bool := negb (Ascii.eqb c "-").

Definition is_digit (c : ascii) : bool :=
  let n := nat_of_ascii c in ((48 <=? n) && (n <=? 57))%nat.

(** The characters of a displayed name that a path segment carries as
    they are, once the spaces are dashes: ASCII letters, digits, spaces
    and the marks [( ) ' & , !]. *)
Definition segment_char (c : ascii) : bool :=
  JS.is_upper c || JS.is_lower c || is_digit c
  || existsb (Ascii.eqb c) [" "; "("; ")"; "'"; "&"; ","; "!"]%char.

(** A displayed name that reaches the route as the segment built from it:
    not empty, made of these characters, with no space at either end. *)
Definition path_safe (s : string) : bool :=
  all_chars segment_char s
  && first_satisfies (fun c => negb (Ascii.eqb c " ")) s
  && last_satisfies (fun c => negb (Ascii.eqb c " ")) s.

(** A line of featured.txt in the form of a path segment: not empty,
    ASCII text, no white space, no uppercase letter, no dash at either
    end. *)
Definition slug (s : string) : bool :=
  all_chars (fun c => JS.is_ascii c && not_space c && negb (JS.is_upper c)) s
  && first_satisfies not_dash s && last_satisfies not_dash s.

(** A file made of the given lines, with or without a final line break. *)
Definition file_of (lines : list string) (final_break : bool) : string :=
  JS.join (String "010" EmptyString) lines
  ++ (if final_break then String "010" EmptyString else EmptyString).

End Ref.

(** * Properties *)

Import Ref.

(** ** Strings *)

Lemma append_nil_r (s : string) : s ++ EmptyString = s.
Proof. induction s as [|c s IH]; simpl; [reflexivity | now rewrite IH]. Qed.

Lemma append_assoc (a b c : string) : (a ++ b) ++ c = a ++ b ++ c.
Proof. induction a as [|x a IH]; simpl; [reflexivity | now rewrite IH]. Qed.

Lemma length_append (a b : string) :
  String.length (a ++ b) = String.length a + String.length b.
Proof. induction a as [|x a IH]; simpl; [reflexivity | now rewrite IH]. Qed.

Lemma lower_char_idem (c : ascii) :
  JS.lower_char (JS.lower_char c) = JS.lower_char c.
Proof.
  destruct c as [[] [] [] [] [] [] [] []]; reflexivity.
Qed.

Lemma toLowerCase_idem (s : string) :
  JS.toLowerCase (JS.toLowerCase s) = JS.toLowerCase s.
Proof.
  induction s as [|c s IH]; simpl; [reflexivity|].
  now rewrite lower_char_idem, IH.
Qed.

Lemma toLowerCase_append (a b : string) :
  JS.toLowerCase (a ++ b) = JS.toLowerCase a ++ JS.toLowerCase b.
Proof. induction a as [|x a IH]; simpl; [reflexivity | now rewrite IH]. Qed.

Lemma split_not_nil (sep : ascii) (s : string) : JS.split sep s <> [].
Proof.
  destruct s as [|c s]; simpl; [discriminate|].
  destruct (Ascii.eqb c sep); [discriminate|].
  destruct (JS.split sep s); discriminate.
Qed.

(** The loops of [formatDashes] and [formatTitleCase] build
    [f w0 ++ sep ++ f w1 ++ sep ++ ...]. *)
Lemma fold_left_sep (sep : string) (f : string -> string) (ws : list string)
    (acc : string) :
  fold_left (fun r w => r ++ sep ++ f w) ws acc
  = acc ++ fold_right (fun w t => sep ++ f w ++ t) EmptyString ws.
Proof.
  revert acc; induction ws as [|w ws IH]; intros acc; simpl.
  - now rewrite append_nil_r.
  - rewrite IH. now rewrite !append_assoc.
Qed.

Lemma dashed_split (s : string) : dashed (JS.split " " s) = dash_lower s.
Proof.
  induction s as [|c s IH]; [reflexivity|].
  cbn [JS.split dash_lower]. unfold dash_char.
  destruct (Ascii.eqb c " ") eqn:E.
  - rewrite <- IH. unfold dashed. cbn [hd tl JS.toLowerCase fold_right].
    pose proof (split_not_nil " " s) as H.
    destruct (JS.split " " s) as [|w ws]; [congruence|]. reflexivity.
  - rewrite <- IH. pose proof (split_not_nil " " s) as H.
    destruct (JS.split " " s) as [|w ws]; [congruence|]. reflexivity.
Qed.

Lemma formatDashes_spec (s : string) : formatDashes s = dash_lower s.
Proof.
  unfold formatDashes. rewrite fold_left_sep. apply dashed_split.
Qed.

Lemma dash_char_idem (c : ascii) : dash_char (dash_char c) = dash_char c.
Proof.
  destruct c as [[] [] [] [] [] [] [] []]; reflexivity.
Qed.

Lemma formatDashes_idem (s : string) :
  formatDashes (formatDashes s) = formatDashes s.
Proof.
  rewrite !formatDashes_spec.
  induction s as [|c s IH]; simpl; [reflexivity|].
  now rewrite dash_char_idem, IH.
Qed.

Lemma formatDashes_lower (s : string) :
  formatDashes (JS.toLowerCase s) = formatDashes s.
Proof.
  rewrite !formatDashes_spec.
  induction s as [|c s IH]; simpl; [reflexivity|]. rewrite IH. f_equal.
  destruct c as [[] [] [] [] [] [] [] []]; reflexivity.
Qed.

Example formatDashes_ex : formatDashes "Mini Palmiers" = "mini-palmiers".
Proof. reflexivity. Qed.

Example formatTitleCase_ex : formatTitleCase "mini-palmier" = "Mini Palmier".
Proof. reflexivity. Qed.

Example slice_ex : JS.slice "2 Brownies - $4.00X" 2 10 = "Brownies".
Proof. reflexivity. Qed.

(** ** Validation of [GET /products] *)

Section ProductsValidation.

Import Server.

Variable q : products_query.

Let sort := JS.toLowerCase (or_default (q_sort q) "name").
Let direction := JS.toLowerCase (or_default (q_direction q) "asc").

Lemma validate_signal :
  snd (validateProductsQuery q)
  = if (negb (String.eqb sort "name") && negb (String.eqb sort "price"))
       || (negb (String.eqb direction "asc") && negb (String.eqb direction "desc"))
    then NextError 400 (mkError INVALID_QUERY_ERR)
    else Next.
Proof.
  unfold validateProductsQuery. fold sort direction.
  destruct (_ || _); reflexivity.
Qed.

Lemma validate_request :
  fst (validateProductsQuery q)
  = mkQuery (Some (formatDashes (or_default (q_contains q) EmptyString)))
            (Some sort) (Some direction).
Proof.
  unfold validateProductsQuery. fold sort direction.
  destruct (_ || _); reflexivity.
Qed.

End ProductsValidation.

(** Case variants of the keywords and missing parameters, on the seeded
    catalog: the request is passed on to the handler. *)
Example validation_case_variants :
  snd (Server.validateProductsQuery (Server.mkQuery None (Some "PrIcE") (Some "DESC")))
  = Server.Next
  /\ snd (Server.validateProductsQuery (Server.mkQuery None (Some "NAME") (Some "Asc")))
     = Server.Next
  /\ snd (Server.validateProductsQuery (Server.mkQuery None None None)) = Server.Next.
Proof. repeat split. Qed.

(** ** Rewriting of the [contains] parameter *)

Section ContainsRewrite.

Import Server.

Lemma or_default_formatDashes (c : string) :
  or_default (Some (formatDashes c)) EmptyString = formatDashes c.
Proof. unfold or_default, JS.truthy. now destruct (formatDashes c). Qed.

Lemma get_products_contains (q : products_query) (w : world) :
  get_products q w
  = get_products
      (mkQuery (Some (formatDashes (or_default (q_contains q) EmptyString)))
               (q_sort q) (q_direction q)) w.
Proof.
  unfold get_products.
  rewrite (surjective_pairing (validateProductsQuery q)).
  rewrite (surjective_pairing (validateProductsQuery (mkQuery _ _ _))).
  rewrite !validate_request, !validate_signal. cbn [q_contains q_sort q_direction].
  now rewrite or_default_formatDashes, formatDashes_idem.
Qed.

End ContainsRewrite.

Example contains_mixed_case :
  forall w,
    Server.get_products (Server.mkQuery (Some "Mini PALMIERS") None None) w
    = Server.get_products (Server.mkQuery (Some "mini-palmiers") None None) w.
Proof.
  intros w. rewrite get_products_contains.
  rewrite (get_products_contains (Server.mkQuery (Some "mini-palmiers") None None)).
  reflexivity.
Qed.

(** ** Query values that are not strings *)

Section QueryValues.

Import Server.

Lemma or_default_text (v : option string) (d : string) :
  Express.or_default (option_map Express.VString v) d
  = Express.VString (or_default v d).
Proof. destruct v as [[|c s]|]; reflexivity. Qed.

Lemma or_default_given (v : option string) (d : string) :
  or_default v d = given v d.
Proof. destruct v as [[|c s]|]; reflexivity. Qed.

(** On parameters that are strings or missing, the middleware is the one
    of [Server]. *)
Lemma validateProductsQuery_text (c s d : option string) :
  Express.validateProductsQuery (text_query c s d)
  = Express.Returned (validateProductsQuery (mkQuery c s d)).
Proof.
  unfold Express.validateProductsQuery, text_query, validateProductsQuery.
  cbn [Express.contains Express.sort Express.direction q_contains q_sort q_direction].
  rewrite !or_default_text. cbn [Express.formatDashes Express.toLowerCase].
  destruct (_ || _); reflexivity.
Qed.

Lemma get_products_text (c s d : option string) (w : world) :
  Express.get_products (text_query c s d) w = get_products (mkQuery c s d) w.
Proof.
  unfold Express.get_products, get_products.
  rewrite validateProductsQuery_text.
  now destruct (validateProductsQuery (mkQuery c s d)).
Qed.

(** The validation on parameters that are strings or missing, the filter
    being ASCII text. The filter is rewritten, the sort key and the
    direction are lowercased, each after its default; the request is
    passed to the handler exactly when the order is one of the four, and
    is answered 400 with the invalid-query message otherwise, the world
    untouched: no connection was opened and no query was sent. *)
Lemma products_query_on_text (c s d : option string) (w : world) :
  let sort := JS.toLowerCase (given s "name") in
  let direction := JS.toLowerCase (given d "asc") in
  let q' := mkQuery (Some (dash_lower (given c EmptyString)))
                    (Some sort) (Some direction) in
  ascii_text (given c EmptyString) = true ->
  (valid_order sort direction ->
   Express.validateProductsQuery (text_query c s d) = Express.Returned (q', Next)
   /\ Express.get_products (text_query c s d) w
      = after_middleware Next (products_handler q') w)
  /\ (~ valid_order sort direction ->
      Express.validateProductsQuery (text_query c s d)
      = Express.Returned (q', NextError 400 (mkError INVALID_QUERY_ERR))
      /\ Express.get_products (text_query c s d) w
         = (Sent (mkResponse 400 (Text INVALID_QUERY_ERR)), w)).
Proof.
  intros sort direction q' _.
  assert (Hq : fst (validateProductsQuery (mkQuery c s d)) = q').
  { rewrite validate_request. cbn [q_contains q_sort q_direction].
    now rewrite !or_default_given, formatDashes_spec. }
  assert (Hs : snd (validateProductsQuery (mkQuery c s d))
               = if (negb (String.eqb sort "name") && negb (String.eqb sort "price"))
                    || (negb (String.eqb direction "asc")
                        && negb (String.eqb direction "desc"))
                 then NextError 400 (mkError INVALID_QUERY_ERR)
                 else Next).
  { rewrite validate_signal. cbn [q_sort q_direction].
    now rewrite !or_default_given. }
  unfold Express.get_products. rewrite validateProductsQuery_text.
  rewrite (surjective_pairing (validateProductsQuery (mkQuery c s d))), Hq, Hs.
  unfold valid_order.
  destruct (String.eqb_spec sort "name") as [Hn|Hn];
    destruct (String.eqb_spec sort "price") as [Hp|Hp];
    destruct (String.eqb_spec direction "asc") as [Ha|Ha];
    destruct (String.eqb_spec direction "desc") as [Hd|Hd];
    cbn [negb andb orb]; (split; intros H; [|try tauto]; try tauto);
    split; reflexivity.
Qed.

(** The keywords in any case, and the defaults [name] and [asc] of
    missing or empty parameters, on the seeded catalog. *)
Example order_case_variants :
  Express.validateProductsQuery (text_query (Some "Mini PALMIERS") (Some "PrIcE") (Some "DESC"))
  = Express.Returned (mkQuery (Some "mini-palmiers") (Some "price") (Some "desc"), Next)
  /\ Express.validateProductsQuery (text_query None None (Some EmptyString))
     = Express.Returned (mkQuery (Some EmptyString) (Some "name") (Some "asc"), Next)
  /\ Express.get_products (text_query None None None) (fresh Seed.catalog [])
     = get_products (mkQuery (Some EmptyString) (Some "name") (Some "asc"))
                    (fresh Seed.catalog [])
  /\ Express.get_products (text_query None (Some "cost") None) (fresh Seed.catalog [])
     = (Sent (mkResponse 400 (Text INVALID_QUERY_ERR)), fresh Seed.catalog []).
Proof. repeat split. Qed.

(** A string filter of ASCII text, whatever the other two parameters: the
    request answers as the request that carries the lowercase filter with
    a dash for every space, and that filter is the one the middleware
    stores whenever it returns. *)
Lemma contains_rewritten_on_text
    (c : option string) (s d : option Express.value) (w : world) :
  ascii_text (given c EmptyString) = true ->
  Express.get_products (Express.mkQuery (option_map Express.VString c) s d) w
  = Express.get_products
      (Express.mkQuery (Some (Express.VString (dash_lower (given c EmptyString)))) s d) w
  /\ forall q' sig,
       Express.validateProductsQuery (Express.mkQuery (option_map Express.VString c) s d)
       = Express.Returned (q', sig) ->
       q_contains q' = Some (dash_lower (given c EmptyString)).
Proof.
  intros _.
  assert (Hc : Express.formatDashes (Express.or_default (option_map Express.VString c) EmptyString)
               = Express.Returned (dash_lower (given c EmptyString))).
  { rewrite or_default_text. cbn [Express.formatDashes].
    now rewrite or_default_given, formatDashes_spec. }
  assert (Hc' : Express.formatDashes
                  (Express.or_default
                     (Some (Express.VString (dash_lower (given c EmptyString)))) EmptyString)
                = Express.Returned (dash_lower (given c EmptyString))).
  { rewrite (or_default_text (Some (dash_lower (given c EmptyString)))).
    cbn [Express.formatDashes].
    rewrite <- (formatDashes_spec (given c EmptyString)).
    now rewrite or_default_formatDashes, formatDashes_idem. }
  split.
  - unfold Express.get_products, Express.validateProductsQuery.
    cbn [Express.contains Express.sort Express.direction].
    now rewrite Hc, Hc'.
  - intros q' sig. unfold Express.validateProductsQuery.
    cbn [Express.contains Express.sort Express.direction]. rewrite Hc.
    destruct (Express.toLowerCase _ _); [|discriminate].
    destruct (Express.toLowerCase _ _); [|discriminate].
    destruct (_ || _); intros H; inversion H; reflexivity.
Qed.

(** A mixed-case filter with a space, on the seeded catalog: the answer is
    the row of the one product whose name contains both words. *)
Example contains_mini_palmiers :
  Express.validateProductsQuery (text_query (Some "Mini PALMIERS") None None)
  = Express.Returned (mkQuery (Some "mini-palmiers") (Some "name") (Some "asc"), Next)
  /\ exists p w',
       Express.get_products (text_query (Some "Mini PALMIERS") None None)
                            (fresh Seed.catalog [])
       = (Sent (mkResponse 200 (JsonProducts [p])), w')
       /\ p_name p = "Mini Palmiers".
Proof.
  split; [reflexivity|]. eexists. eexists. split; reflexivity.
Qed.

(** C5. A repeated [sort] or [direction] key, as in
    [GET /products?sort=name&sort=price], reaches the middleware as an
    array. Whatever the filter and the other key are, [toLowerCase] is not
    a method of an array and the call throws: the request is not answered
    400 with the invalid-query message, as the documentation of the
    endpoint has it for invalid parameters, but 200 with the message of the
    TypeError as its text. The world is untouched. *)
Theorem repeated_order_key_answered_200
    (c s : option string) (other : option Express.value)
    (items : list Express.value) (w : world) :
  Express.get_products
    (Express.mkQuery (option_map Express.VString c)
                     (Some (Express.VArray items)) other) w
  = (Sent (mkResponse 200 (Text "req.query.sort.toLowerCase is not a function")), w)
  /\ Express.get_products
       (Express.mkQuery (option_map Express.VString c)
                        (option_map Express.VString s)
                        (Some (Express.VArray items))) w
     = (Sent (mkResponse 200 (Text "req.query.direction.toLowerCase is not a function")),
        w).
Proof.
  split.
  - unfold Express.get_products, Express.validateProductsQuery.
    cbn [Express.contains Express.sort Express.direction].
    rewrite or_default_text. reflexivity.
  - unfold Express.get_products, Express.validateProductsQuery.
    cbn [Express.contains Express.sort Express.direction].
    rewrite !or_default_text. reflexivity.
Qed.

Example repeated_sort_key :
  Express.get_products
    (Express.mkQuery None
       (Some (Express.VArray [Express.VString "name"; Express.VString "price"])) None)
    (fresh Seed.catalog [])
  = (Sent (mkResponse 200 (Text "req.query.sort.toLowerCase is not a function")),
     fresh Seed.catalog []).
Proof. reflexivity. Qed.

(** C9. A repeated [contains] key, as in
    [GET /products?contains=mini&contains=palmiers], reaches [formatDashes]
    as an array. [split] is not a method of an array and the call throws:
    the filter is not rewritten and the request is not filtered; whatever
    the sort key and the direction are, the answer is 200 with the message
    of the TypeError as its text, and the world is untouched. *)
Theorem repeated_contains_answered_200
    (items : list Express.value) (s d : option Express.value) (w : world) :
  Express.validateProductsQuery (Express.mkQuery (Some (Express.VArray items)) s d)
  = Express.Thrown (mkError "name.split is not a function")
  /\ Express.get_products (Express.mkQuery (Some (Express.VArray items)) s d) w
     = (Sent (mkResponse 200 (Text "name.split is not a function")), w).
Proof.
  split; [reflexivity|].
  unfold Express.get_products. reflexivity.
Qed.

Example repeated_contains_key :
  Express.get_products
    (Express.mkQuery
       (Some (Express.VArray [Express.VString "mini"; Express.VString "palmiers"]))
       None None)
    (fresh Seed.catalog [])
  = (Sent (mkResponse 200 (Text "name.split is not a function")),
     fresh Seed.catalog []).
Proof. reflexivity. Qed.

End QueryValues.

(** ** The product list query *)

Section ProductList.

Import Server.

Lemma like_star_ext (k k' : string -> bool) (s : string) :
  (forall t, k t = k' t) -> like_star k s = like_star k' s.
Proof.
  intros H. induction s as [|c s IH]; simpl; rewrite H; [reflexivity|].
  now rewrite IH.
Qed.

Lemma like_star_lower (k : string -> bool) (s : string) :
  like_star (fun t => k (JS.toLowerCase t)) s = like_star k (JS.toLowerCase s).
Proof. induction s as [|c s IH]; simpl; [reflexivity | now rewrite IH]. Qed.

Lemma like_star_end (s : string) : like_star (like_match EmptyString) s = true.
Proof.
  induction s as [|c s IH]; [reflexivity|].
  cbn [like_star]. rewrite IH. apply orb_true_r.
Qed.

Lemma includes_like_star (s pat : string) :
  JS.includes s pat = like_star (String.prefix pat) s.
Proof.
  unfold JS.includes. induction s as [|c s IH].
  - cbn [JS.find_index like_star]. destruct (String.prefix pat EmptyString); reflexivity.
  - cbn [JS.find_index like_star]. rewrite <- IH.
    destruct (String.prefix pat (String c s)); [reflexivity|].
    destruct (JS.find_index pat s); reflexivity.
Qed.

(** A pattern without special characters followed by [%] accepts the
    strings that start with it, ignoring case. *)
Lemma like_literal_prefix (tok s : string) :
  literal tok = true ->
  like_match (tok ++ "%") s = String.prefix (JS.toLowerCase tok) (JS.toLowerCase s).
Proof.
  revert s; induction tok as [|c tok IH]; intros s H.
  - change (like_match (EmptyString ++ "%") s)
      with (like_star (like_match EmptyString) s).
    rewrite like_star_end. now destruct (JS.toLowerCase s).
  - cbn [literal all_chars] in H. apply andb_true_iff in H as [Hc Ht].
    unfold like_special in Hc. rewrite !negb_orb in Hc.
    apply andb_true_iff in Hc as [Hc H3]. apply andb_true_iff in Hc as [H1 H2].
    apply negb_true_iff in H1, H2, H3.
    cbn [append like_match]. rewrite H1, H2, H3.
    destruct s as [|d s]; [reflexivity|].
    cbn [JS.toLowerCase String.prefix]. rewrite IH by exact Ht.
    unfold ci_char_eqb.
    destruct (ascii_dec (JS.lower_char c) (JS.lower_char d)) as [E|E].
    + rewrite E, Ascii.eqb_refl. reflexivity.
    + apply Ascii.eqb_neq in E. rewrite E. reflexivity.
Qed.

(** [name LIKE '%tok%'] is the case-insensitive substring test as long as
    [tok] has no special character. *)
Lemma like_literal_includes (tok name : string) :
  literal tok = true ->
  like_match ("%" ++ tok ++ "%") name = ci_includes name tok.
Proof.
  intros H. cbn [append like_match]. rewrite Ascii.eqb_refl.
  unfold ci_includes. rewrite includes_like_star, <- like_star_lower.
  apply like_star_ext. intros t. now apply like_literal_prefix.
Qed.

Lemma all_chars_split (P : ascii -> bool) (sep : ascii) (s : string) :
  all_chars P s = true -> Forall (fun w => all_chars P w = true) (JS.split sep s).
Proof.
  induction s as [|c s IH]; intros H.
  - constructor; [reflexivity | constructor].
  - cbn [all_chars] in H. apply andb_true_iff in H as [Hc Hs].
    specialize (IH Hs). cbn [JS.split].
    destruct (Ascii.eqb c sep).
    + constructor; [reflexivity | exact IH].
    + destruct (JS.split sep s) as [|w ws].
      * constructor; [cbn; now rewrite Hc | constructor].
      * inversion IH; subst. constructor; [cbn; now rewrite Hc | assumption].
Qed.

Lemma In_insert_by {A : Type} (le : A -> A -> bool) (x y : A) (l : list A) :
  In x (insert_by le y l) <-> x = y \/ In x l.
Proof.
  induction l as [|z l IH]; simpl.
  - intuition.
  - destruct (le y z); simpl; [intuition | rewrite IH; intuition].
Qed.

Lemma In_sort_by {A : Type} (le : A -> A -> bool) (x : A) (l : list A) :
  In x (sort_by le l) <-> In x l.
Proof.
  induction l as [|z l IH]; simpl; [tauto|].
  rewrite In_insert_by, IH. intuition.
Qed.

(** The patterns that [getProductsListFiltered] hands to the server select
    the same names as the filter of the specification when the filter has
    no special character. *)
Lemma patterns_match_filter (contains name : string) :
  literal contains = true ->
  forallb (fun pat => like_match pat name)
          (map (fun w => "%" ++ w ++ "%") (JS.split "-" contains))
  = matches_filter contains name.
Proof.
  intros H. unfold matches_filter.
  pose proof (all_chars_split _ "-" contains H) as Hall.
  induction Hall as [|w ws Hw _ IH]; [reflexivity|].
  cbn [map forallb]. rewrite IH. f_equal. now apply like_literal_includes.
Qed.

Lemma split_likes (contains : string) :
  1 + (List.length (JS.split "-" contains) - 1)
  = List.length (map (fun w => "%" ++ w ++ "%") (JS.split "-" contains)).
Proof.
  rewrite length_map. pose proof (split_not_nil "-" contains).
  destruct (JS.split "-" contains); [congruence | simpl; lia].
Qed.

(** On a filter without [%], [_] and backslash, the query returns the
    products of the catalog whose name contains every token of the filter,
    ignoring case, and only them. *)
Lemma literal_filter_is_substring_search
    (db : conn) (contains sort direction : string) (w : world) :
  usable db w -> valid_order sort direction -> literal contains = true ->
  exists rows w',
    getProductsListFiltered db contains sort direction w = (inl rows, w')
    /\ forall p, In p rows
                 <-> In p (products (store w))
                     /\ matches_filter contains (p_name p) = true.
Proof.
  intros [Hopen Hfault] [Hs Hd] Hlit.
  unfold getProductsListFiltered, db_query, pop_fault.
  destruct (faults w) as [|b fs] eqn:Ef; cbn [hd] in Hfault; subst;
    cbn [open_conns store faults next_conn log]; rewrite Hopen; cbn [negb];
    unfold select_products_like; rewrite split_likes, Nat.eqb_refl; cbn [negb].
  all: destruct Hs as [-> | ->], Hd as [-> | ->]; cbn;
    eexists; eexists; (split; [reflexivity|]);
    intros p; rewrite In_sort_by, filter_In, patterns_match_filter by exact Hlit;
    reflexivity.
Qed.

End ProductList.

(** The empty filter selects the whole catalog. *)
Lemma empty_filter_matches (name : string) :
  Ref.matches_filter EmptyString name = true.
Proof.
  unfold matches_filter, ci_includes, JS.includes. cbn.
  now destruct (JS.toLowerCase name).
Qed.

Lemma empty_filter_returns_catalog
    (db : Server.conn) (sort direction : string) (w : Server.world) :
  usable db w -> valid_order sort direction ->
  exists rows w',
    Server.getProductsListFiltered db EmptyString sort direction w = (inl rows, w')
    /\ forall p, In p rows <-> In p (Server.products (Server.store w)).
Proof.
  intros Hu Hv.
  destruct (literal_filter_is_substring_search db EmptyString sort direction w Hu Hv eq_refl)
    as (rows & w' & Hrun & Hin).
  exists rows, w'. split; [exact Hrun|].
  intros p. rewrite Hin, empty_filter_matches. tauto.
Qed.

(** C1. The filter ["_"], which a request [GET /products?contains=_]
    hands to the query unchanged, returns the fifteen products of the
    seeded catalog although no name contains an underscore: a token is
    sent to the server as a [LIKE] pattern, in which [_] and [%] are wild
    cards, and is a substring test only when it has none of them
    ([literal_filter_is_substring_search]). *)
Theorem underscore_filter_returns_every_product :
  exists rows w',
    Server.get_products (Server.mkQuery (Some "_") None None)
                        (Server.fresh Seed.catalog [])
    = (Server.Sent (Server.mkResponse 200 (Server.JsonProducts rows)), w')
    /\ List.length rows = 15
    /\ forallb (fun p => negb (Ref.matches_filter "_" (Server.p_name p))) rows = true.
Proof.
  eexists; eexists. split; [vm_compute; reflexivity|]. split; reflexivity.
Qed.

(** ** Runs without a database failure *)

Section Runs.

Import Server.

Lemma getDB_ok (w : world) :
  faults w = [] ->
  getDB w
  = (inl (next_conn w),
     mkWorld (store w) [] (S (next_conn w)) (next_conn w :: open_conns w)
             (log w ++ [EvConnect (next_conn w)])%list).
Proof.
  intros H. unfold getDB, pop_fault. rewrite H. cbn. now rewrite H.
Qed.

Lemma db_query_ok {A : Type} (c : conn) (q : stmt) (ps : list string)
    (run : database -> (A * database) + exn) (w : world) :
  faults w = [] ->
  existsb (Nat.eqb c) (open_conns w) = true ->
  db_query c q ps run w
  = let w2 := mkWorld (store w) [] (next_conn w) (open_conns w)
                      (log w ++ [EvQuery c q ps])%list in
    match run (store w) with
    | inr e => (inr e, w2)
    | inl (a, d') => (inl a, mkWorld d' [] (next_conn w) (open_conns w) (log w2))
    end.
Proof.
  intros H Ho. unfold db_query, pop_fault. rewrite H. cbn. rewrite Ho, H. cbn.
  destruct (run (store w)) as [[a d']|e]; reflexivity.
Qed.

Lemma truthy_some (s : string) : s <> EmptyString -> JS.truthy (Some s) = true.
Proof. destruct s; [congruence | reflexivity]. Qed.

Lemma splice_insert_third {A : Type} (w0 w1 x : A) (l : list A) :
  l <> [] -> JS.splice_insert (w0 :: w1 :: l) 2 x = w0 :: w1 :: x :: l.
Proof.
  intros H. unfold JS.splice_insert, JS.rel_index.
  replace (Z.to_nat _) with 2%nat; [reflexivity|].
  destruct l as [|y l]; [congruence|]. cbn [List.length Z.ltb Z.compare].
  rewrite Z.min_l by lia. reflexivity.
Qed.

Lemma splice_insert_before_last {A : Type} (l : list A) (z x : A) :
  JS.splice_insert (l ++ [z]) (-1) x = (l ++ [x; z])%list.
Proof.
  unfold JS.splice_insert, JS.rel_index. cbn [Z.ltb Z.compare].
  replace (Z.to_nat _) with (List.length l).
  - rewrite firstn_app, firstn_all, skipn_app, skipn_all, Nat.sub_diag.
    cbn. now rewrite app_nil_r.
  - rewrite length_app. cbn [List.length]. lia.
Qed.

(** C2. When the three parameters are given, the database answers and
    the title-cased product name selects a row, the words [w0 w1 mid... z]
    of its description (at least three of them) come back as
    [w0 w1 flavor mid... box z], joined by single spaces, with status 200. *)
Theorem custom_description_inserts
    (product flavor box : string) (w : world)
    (row : Server.product) (rest : list Server.product)
    (w0 w1 z : string) (mid : list string) :
  product <> EmptyString -> flavor <> EmptyString -> box <> EmptyString ->
  faults w = [] ->
  select_product (formatTitleCase product) (store w) = row :: rest ->
  JS.split " " (p_description row) = (w0 :: w1 :: mid ++ [z])%list ->
  exists w',
    post_custom_description
      (mkDescBody (Some product) (Some flavor) (Some box)) w
    = (Sent (mkResponse 200
               (Text (JS.join " " (w0 :: w1 :: flavor :: mid ++ [box; z])%list))),
       w').
Proof.
  intros Hp Hf Hb Hw Hrow Hwords.
  unfold post_custom_description, validateDescParams.
  cbn [b_product b_flavor b_box text_of].
  rewrite !truthy_some by assumption. cbn [negb orb].
  rewrite getDB_ok by exact Hw.
  rewrite db_query_ok; [| reflexivity | cbn; now rewrite Nat.eqb_refl].
  unfold read_only, select_name. cbn [store]. rewrite Hrow. cbn [map List.length Nat.eqb].
  unfold after_middleware, custom_description_handler, with_db, db_end.
  cbn [b_product b_flavor b_box text_of store faults next_conn open_conns log].
  rewrite getDB_ok by reflexivity.
  cbn [store faults next_conn open_conns log].
  unfold getDescription, bind.
  rewrite db_query_ok; [| reflexivity | cbn; now rewrite Nat.eqb_refl].
  unfold read_only, select_description. cbn [store]. rewrite Hrow.
  cbn [map List.length Nat.eqb ret hd]. rewrite Hwords.
  eexists. f_equal. f_equal. f_equal. f_equal.
  assert (Hne : (mid ++ [z])%list <> []) by (destruct mid; discriminate).
  rewrite (splice_insert_third w0 w1 flavor _ Hne).
  change (w0 :: w1 :: flavor :: mid ++ [z])%list
    with ((w0 :: w1 :: flavor :: mid) ++ [z])%list.
  now rewrite splice_insert_before_last.
Qed.

Lemma getDB_store (w w1 : world) (r : conn + exn) :
  getDB w = (r, w1) -> store w1 = store w.
Proof.
  unfold getDB, pop_fault.
  destruct (faults w) as [|[|] fs]; intros H; inversion H; reflexivity.
Qed.

Lemma recordMessage_duplicate (db : conn) (name email message : string) (w : world) :
  existsb (fun r => ci_eqb (fb_email r) email) (feedback (store w)) = true ->
  exists e w',
    recordMessage db name email message w = (inr e, w') /\ store w' = store w.
Proof.
  intros Hdup. unfold recordMessage, db_query, pop_fault, insert_feedback.
  destruct (faults w) as [|[|] fs]; cbn [store open_conns]; rewrite ?Hdup;
    destruct (negb (existsb (Nat.eqb db) (open_conns w)));
    try destruct (negb (fits_feedback name email message));
    eexists; eexists; split; reflexivity.
Qed.

(** C8. A request that passes the form validation and whose address is
    already the key of a feedback row is answered 500 with the generic
    message, whatever the database operations do; the insert itself is
    refused and the feedback table is unchanged. *)
Theorem duplicate_email_is_server_error
    (name email message : string) (w : world) :
  validateForm (mkContactBody (Some name) (Some email) (Some message)) = Next ->
  existsb (fun r => ci_eqb (fb_email r) email) (feedback (store w)) = true ->
  (exists e, insert_feedback name email message (store w) = inr e)
  /\ exists w',
       post_contact_us (mkContactBody (Some name) (Some email) (Some message)) w
       = (Sent (mkResponse 500 (Text SERVER_ERROR)), w')
       /\ feedback (store w') = feedback (store w).
Proof.
  intros Hv Hdup. split.
  - unfold insert_feedback. rewrite Hdup.
    destruct (negb (fits_feedback name email message)); eauto.
  - unfold post_contact_us. rewrite Hv.
    unfold after_middleware, contact_us_handler, with_db.
    cbn [b_name b_email b_message text_of].
    destruct (getDB w) as [[db|e] w1] eqn:Eg.
    + apply getDB_store in Eg.
      destruct (recordMessage_duplicate db name email message w1) as (e & w2 & Hr & Hs).
      { now rewrite Eg. }
      rewrite Hr. eexists. split; [reflexivity|].
      cbn [db_end store]. now rewrite Hs, Eg.
    + apply getDB_store in Eg. eexists. split; [reflexivity|]. now rewrite Eg.
Qed.

End Runs.

(** Cheesecake with flavor Caramel and box Bow on the seeded catalog:
    Caramel is the third word, Bow the last but one. *)
Lemma custom_description_cheesecake :
  exists w',
    Server.post_custom_description
      (Server.mkDescBody (Some "Cheesecake") (Some "Caramel") (Some "Bow"))
      (Server.fresh Seed.catalog [])
    = (Server.Sent (Server.mkResponse 200 (Server.Text
         "One homemade Caramel cheesecake, four inches in diameter. Each cheesecake is
 packaged in a beautiful handcrafted Bow box.")),
       w').
Proof.
  apply (custom_description_inserts "Cheesecake" "Caramel" "Bow"
           (Server.fresh Seed.catalog [])
           (hd (Server.mkProduct EmptyString 0 EmptyString EmptyString) Seed.seed_products)
           []
           "One" "homemade" "box."
           ["cheesecake,"; "four"; "inches"; "in"; "diameter."; "Each";
            "cheesecake"; "is
"; "packaged"; "in"; "a"; "beautiful"; "handcrafted"]);
    try discriminate; reflexivity.
Defined.

Lemma duplicate_email_witness :
  let w := Server.fresh
             (Server.mkDatabase [] [] [] [Server.mkFeedback "ann@example.org" "Ann" "Hello"] [])
             [] in
  exists w',
    Server.post_contact_us
      (Server.mkContactBody (Some "Ann") (Some "Ann@Example.org") (Some "Hello again")) w
    = (Server.Sent (Server.mkResponse 500 (Server.Text Server.SERVER_ERROR)), w')
    /\ Server.feedback (Server.store w') = Server.feedback (Server.store w).
Proof.
  intros w.
  apply (proj2 (duplicate_email_is_server_error "Ann" "Ann@Example.org" "Hello again" w
                  eq_refl eq_refl)).
Defined.

(** ** Connection lifetime *)

Section Connections.

Import Server.

Lemma db_query_keeps {A : Type} (c : conn) (q : stmt) (ps : list string)
    (run : database -> (A * database) + exn) :
  keeps_connections (db_query c q ps run).
Proof.
  intros w. unfold db_query, pop_fault.
  destruct (faults w) as [|[|] fs]; cbn [store faults next_conn open_conns log snd];
    try reflexivity.
  all: destruct (negb _); [reflexivity|];
    destruct (run (store w)) as [[a d']|e]; reflexivity.
Qed.

Lemma bind_keeps {A B : Type} (m : M A) (k : A -> M B) :
  keeps_connections m -> (forall a, keeps_connections (k a)) ->
  keeps_connections (bind m k).
Proof.
  intros Hm Hk w. unfold bind. specialize (Hm w).
  destruct (m w) as [[a|e] w1]; cbn [snd] in *; [|exact Hm].
  now rewrite Hk.
Qed.

Lemma ret_keeps {A : Type} (a : A) : keeps_connections (ret a).
Proof. intros w. reflexivity. Qed.

Lemma throw_keeps {A : Type} (e : exn) : keeps_connections (@throw A e).
Proof. intros w. reflexivity. Qed.

Create HintDb conns.
#[local] Hint Resolve db_query_keeps ret_keeps throw_keeps : conns.

Lemma getProductsListFiltered_keeps db c s d :
  keeps_connections (getProductsListFiltered db c s d).
Proof. unfold getProductsListFiltered. auto with conns. Qed.

Lemma getProduct_keeps db p : keeps_connections (getProduct db p).
Proof.
  unfold getProduct. apply bind_keeps; [auto with conns|].
  intros rows. destruct (Nat.eqb _ _); auto with conns.
Qed.

Lemma getProductFlavors_keeps db p : keeps_connections (getProductFlavors db p).
Proof.
  unfold getProductFlavors. apply bind_keeps; [apply getProduct_keeps|].
  auto with conns.
Qed.

Lemma getDescription_keeps db p : keeps_connections (getDescription db p).
Proof.
  unfold getDescription. apply bind_keeps; [auto with conns|].
  intros rows. destruct (Nat.eqb _ _); auto with conns.
Qed.

Lemma recordMessage_keeps db n e m : keeps_connections (recordMessage db n e m).
Proof. unfold recordMessage. auto with conns. Qed.

Lemma getMacaronFlavors_keeps db : keeps_connections (getMacaronFlavors db).
Proof. unfold getMacaronFlavors. auto with conns. Qed.

Lemma getFAQ_keeps db : keeps_connections (getFAQ db).
Proof. unfold getFAQ. auto with conns. Qed.

#[local] Hint Resolve getProductsListFiltered_keeps getProduct_keeps
  getProductFlavors_keeps getDescription_keeps recordMessage_keeps
  getMacaronFlavors_keeps getFAQ_keeps : conns.

(** A handler of the shared shape closes the connection it opened, on
    success and on failure, and opens none when the connection fails. *)
Lemma with_db_closes {A : Type} (work : conn -> M A) (reply : A -> response)
    (fail : exn -> response) (w : world) :
  (forall db, keeps_connections (work db)) ->
  open_conns w = [] ->
  left_open (with_db work reply fail w) = [].
Proof.
  intros Hwork Hw. unfold left_open, with_db.
  destruct (getDB w) as [[db|e] w1] eqn:Eg.
  - assert (Ho : open_conns w1 = [db]).
    { revert Eg. unfold getDB, pop_fault.
      destruct (faults w) as [|[|] fs]; intros Eg; inversion Eg; subst;
        cbn [open_conns]; now rewrite Hw. }
    pose proof (Hwork db w1) as Hk.
    destruct (work db w1) as [[x|e] w2]; cbn [snd open_conns db_end] in *;
      rewrite Hk, Ho; cbn; now rewrite Nat.eqb_refl.
  - revert Eg. unfold getDB, pop_fault.
    destruct (faults w) as [|[|] fs]; intros Eg; inversion Eg; subst; exact Hw.
Qed.

Lemma after_next_closes (handler : world -> response * world) (w : world) :
  left_open (handler w) = [] -> left_open (after_middleware Next handler w) = [].
Proof.
  unfold left_open, after_middleware. now destruct (handler w).
Qed.

Lemma after_error_keeps (code : nat) (err : exn)
    (handler : world -> response * world) (w : world) :
  left_open (after_middleware (NextError code err) handler w) = open_conns w.
Proof. reflexivity. Qed.

(** The handlers close their connection on every path: a request that
    starts without a connection ends without one. *)
Lemma handlers_close_connection (w : world) :
  open_conns w = [] ->
  (forall q, left_open (get_products q w) = [])
  /\ (forall name, left_open (get_product name w) = [])
  /\ (forall name, left_open (get_flavors name w) = [])
  /\ left_open (get_macaron_flavors w) = []
  /\ left_open (get_faq w) = []
  /\ (forall b, left_open (post_contact_us b w) = [])
  /\ (forall b, left_open (custom_description_handler b w) = []).
Proof.
  intros Hw. repeat split; intros.
  - unfold get_products. destruct (validateProductsQuery q) as [q' [| code err | err]].
    + apply after_next_closes, with_db_closes; auto with conns.
    + now rewrite after_error_keeps.
    + exact Hw.
  - apply after_next_closes, with_db_closes; auto with conns.
  - apply after_next_closes, with_db_closes; auto with conns.
  - apply after_next_closes, with_db_closes; auto with conns.
  - apply after_next_closes, with_db_closes; auto with conns.
  - unfold post_contact_us. destruct (validateForm b) as [| code err | err].
    + apply after_next_closes, with_db_closes; auto with conns.
    + now rewrite after_error_keeps.
    + exact Hw.
  - apply with_db_closes; auto with conns.
Qed.

(** C7. [POST /custom-description] when the connection of the validation
    middleware is established and its query then fails: the middleware
    has no [try]/[catch], its promise is rejected before [db.end()], no
    answer is sent and connection 0 stays open. (The handlers do close
    theirs, see [handlers_close_connection].) *)
Theorem validateDescParams_leaves_connection_open :
  let b := mkDescBody (Some "cheesecake") (Some "caramel") (Some "bow") in
  let w := fresh Seed.catalog [false; true] in
  exists err w',
    post_custom_description b w = (Unanswered err, w')
    /\ open_conns w' = [0]
    /\ log w' = [EvConnect 0; EvQuery 0 SelectName ["Cheesecake"]].
Proof.
  eexists; eexists. split; [vm_compute; reflexivity|]. split; reflexivity.
Qed.

End Connections.

(** ** The featured section *)

Section Featured.

Import Home.

Variable net : network.

Lemma fetch_cards_all (names : list string) (ps : list Server.product) (pg : page) :
  details net names ps ->
  fetch_cards net names pg
  = inl (mkPage (results pg)
                (featured pg ++ map createCard ps)%list
                (trace pg ++ sequential_pass names ps)%list).
Proof.
  intros H. revert pg. induction H as [|n p names ps Hn _ IH]; intros pg.
  - cbn. rewrite !app_nil_r. now destruct pg.
  - cbn [fetch_cards]. fold (detail_url n). rewrite Hn, IH.
    cbn [results featured trace]. unfold sequential_pass.
    cbn [combine flat_map map fst snd]. f_equal. f_equal.
    + now rewrite <- app_assoc.
    + now rewrite <- !app_assoc.
Qed.

Lemma fetch_cards_stops (pre post : list string) (bad : string)
    (ps : list Server.product) (pg : page) :
  details net pre ps ->
  product_details net (detail_url bad) = None ->
  fetch_cards net (pre ++ bad :: post) pg
  = inr (mkPage (results pg)
                (featured pg ++ map createCard ps)%list
                (trace pg ++ sequential_pass pre ps ++ [Fetch (detail_url bad)])%list).
Proof.
  intros H Hbad. revert pg. induction H as [|n p names ps Hn _ IH]; intros pg.
  - cbn [app fetch_cards]. fold (detail_url bad). rewrite Hbad.
    cbn. now rewrite app_nil_r.
  - cbn [app fetch_cards]. fold (detail_url n). rewrite Hn, IH.
    cbn [results featured trace]. unfold sequential_pass.
    cbn [combine flat_map map fst snd]. f_equal. f_equal.
    + now rewrite <- app_assoc.
    + now rewrite <- !app_assoc.
Qed.

(** C6, amended. The names of the response are fetched one after the
    other, in order, and the card of a name is appended before the next
    one is requested. When every request succeeds the section holds one
    card per name in that order and the message is cleared. When the
    request for a name fails, the error message is shown, the names that
    follow are not requested, and the cards of the names that precede
    stay on the page. *)
Theorem featured_rendering (pg : page) (text : string) :
  featured_names net = Some text ->
  (forall ps,
      details net (names_of text) ps ->
      initializeFeatured net pg
      = mkPage EmptyString
               (featured pg ++ map createCard ps)%list
               (trace pg ++ Fetch (BASE_URL ++ "featured")
                  :: sequential_pass (names_of text) ps)%list)
  /\ (forall pre bad post ps,
         names_of text = (pre ++ bad :: post)%list ->
         details net pre ps ->
         product_details net (detail_url bad) = None ->
         initializeFeatured net pg
         = mkPage error_text
                  (featured pg ++ map createCard ps)%list
                  (trace pg ++ Fetch (BASE_URL ++ "featured")
                     :: sequential_pass pre ps ++ [Fetch (detail_url bad)])%list).
Proof.
  intros Ht. split.
  - intros ps Hd. unfold initializeFeatured. rewrite Ht.
    fold (names_of text). rewrite (fetch_cards_all _ _ _ Hd).
    cbn [results featured trace]. now rewrite <- app_assoc.
  - intros pre bad post ps Hn Hd Hbad. unfold initializeFeatured. rewrite Ht.
    fold (names_of text). rewrite Hn, (fetch_cards_stops _ _ _ _ _ Hd Hbad).
    unfold handleRequestError. cbn [results featured trace].
    now rewrite <- app_assoc.
Qed.

End Featured.

(** C6 as worded fails: the response names Cheesecake then Cake, the
    first detail request succeeds and the second fails; the page shows
    the error message and still holds the Cheesecake card. *)
Lemma featured_partial_rendering :
  let cheesecake := Server.mkProduct "Cheesecake" 7 "A delicious cheesecake."
                                     "imgs/cheesecake.jpg" in
  let net := Home.mkNetwork
               (Some ("Cheesecake" ++ String "010" "Cake" ++ String "010" EmptyString))
               (fun url => if String.eqb url "/products/cheesecake"
                           then Some cheesecake else None) in
  let pg := Home.initializeFeatured net (Home.mkPage EmptyString [] []) in
  Home.results pg = error_text
  /\ Home.featured pg = [Home.createCard cheesecake]
  /\ Home.trace pg = [Home.Fetch "/featured"; Home.Fetch "/products/cheesecake";
                      Home.Append (Home.createCard cheesecake);
                      Home.Fetch "/products/cake"]
  /\ ~ no_partial_rendering.
Proof.
  intros cheesecake net pg. repeat split.
  intros H. specialize (H net (Home.mkPage EmptyString [] []) _ eq_refl).
  assert (Hex : exists n, In n (names_of ("Cheesecake" ++ String "010" "Cake" ++ String "010" EmptyString))
                          /\ Home.product_details net (detail_url n) = None).
  { exists "Cake". split; [right; left; reflexivity | reflexivity]. }
  specialize (H Hex). discriminate H.
Qed.

Lemma featured_rendering_witness :
  let cheesecake := Server.mkProduct "Cheesecake" 7 "A delicious cheesecake."
                                     "imgs/cheesecake.jpg" in
  let net := Home.mkNetwork
               (Some ("Cheesecake" ++ String "010" "Cake" ++ String "010" EmptyString))
               (fun url => if String.eqb url "/products/cheesecake"
                           then Some cheesecake else None) in
  Home.initializeFeatured net (Home.mkPage EmptyString [] [])
  = Home.mkPage error_text [Home.createCard cheesecake]
      [Home.Fetch "/featured"; Home.Fetch "/products/cheesecake";
       Home.Append (Home.createCard cheesecake); Home.Fetch "/products/cake"].
Proof.
  intros cheesecake net.
  apply (proj2 (featured_rendering net (Home.mkPage EmptyString [] []) _ eq_refl)
           ["Cheesecake"] "Cake" [] [cheesecake]).
  - reflexivity.
  - repeat constructor.
  - reflexivity.
Defined.

(** ** Adding to the cart *)

Section CartAdd.

Import Cart.

Variable nm : string.

Lemma splice_loop_past (fuel i : nat) (cart : list item) (found : option item) :
  List.length cart <= i -> splice_loop fuel nm i cart found = (cart, found).
Proof.
  intros H. destruct fuel as [|fuel]; [reflexivity|]. cbn [splice_loop].
  apply nth_error_None in H. now rewrite H.
Qed.

Lemma nth_error_middle {A : Type} (pre suf : list A) (x : A) :
  nth_error (pre ++ x :: suf) (List.length pre) = Some x.
Proof. induction pre as [|p pre IH]; [reflexivity | exact IH]. Qed.

Lemma splice_delete_middle {A : Type} (pre suf : list A) (x : A) :
  JS.splice_delete (pre ++ x :: suf) (List.length pre) = (pre ++ suf)%list.
Proof. induction pre as [|p pre IH]; [reflexivity | cbn; now rewrite IH]. Qed.

Lemma length_snoc {A : Type} (pre : list A) (y : A) :
  List.length (pre ++ [y]) = S (List.length pre).
Proof. rewrite length_app. cbn. lia. Qed.

(** The index loop and its reading along the array agree. *)
Lemma splice_loop_scan (fuel : nat) :
  forall (pre suf : list item) (found : option item),
    List.length suf <= fuel ->
    splice_loop fuel nm (List.length pre) (pre ++ suf) found
    = ((pre ++ fst (scan nm suf found))%list, snd (scan nm suf found)).
Proof.
  induction fuel as [|fuel IH]; intros pre suf found Hlen.
  - destruct suf; [reflexivity | cbn in Hlen; lia].
  - destruct suf as [|x rest].
    + apply splice_loop_past. rewrite app_nil_r. lia.
    + cbn [splice_loop scan]. rewrite nth_error_middle. fold (named nm x).
      cbn [List.length] in Hlen. destruct (named nm x).
      * rewrite splice_delete_middle. destruct rest as [|y rest'].
        { rewrite splice_loop_past by (rewrite app_nil_r; lia). reflexivity. }
        cbn [List.length] in Hlen.
        replace (pre ++ y :: rest')%list with ((pre ++ [y]) ++ rest')%list
          by now rewrite <- app_assoc.
        rewrite <- length_snoc with (y := y). rewrite IH by lia.
        destruct (scan nm rest' (Some x)) as [r f]. cbn [fst snd].
        now rewrite <- app_assoc.
      * replace (pre ++ x :: rest)%list with ((pre ++ [x]) ++ rest)%list
          by now rewrite <- app_assoc.
        rewrite <- length_snoc with (y := x). rewrite IH by lia.
        destruct (scan nm rest found) as [r f]. cbn [fst snd].
        now rewrite <- app_assoc.
Qed.

Lemma splice_named_scan (cart : list item) :
  splice_named nm cart = scan nm cart None.
Proof.
  unfold splice_named.
  pose proof (splice_loop_scan (List.length cart) [] cart None (le_n _)) as H.
  cbn [List.length app] in H. rewrite H.
  now destruct (scan nm cart None).
Qed.

(** An induction principle that follows the two-step recursion of [scan]. *)
Lemma pair_induction {A : Type} (P : list A -> Prop) :
  P [] -> (forall x, P [x]) ->
  (forall x y l, P l -> P (y :: l) -> P (x :: y :: l)) ->
  forall l, P l.
Proof.
  intros H0 H1 H2 l. enough (P l /\ forall x, P (x :: l)) by tauto.
  induction l as [|y l [IHa IHb]]; split; auto.
Qed.

Lemma scan_step (x : item) (rest : list item) (found : option item) :
  scan nm (x :: rest) found
  = if named nm x then
      match rest with
      | [] => ([], Some x)
      | y :: rest' => let (r, f) := scan nm rest' (Some x) in (y :: r, f)
      end
    else let (r, f) := scan nm rest found in (x :: r, f).
Proof. reflexivity. Qed.

(** The items of the other products are kept, in their order. *)
Lemma scan_keeps_others (l : list item) :
  forall found, filter (other nm) (fst (scan nm l found)) = filter (other nm) l.
Proof.
  induction l as [| x | x y l IH1 IH2] using pair_induction; intros found.
  - reflexivity.
  - rewrite scan_step. destruct (named nm x) eqn:E; cbn [scan fst filter];
      unfold other; rewrite E; reflexivity.
  - rewrite scan_step. destruct (named nm x) eqn:E.
    + specialize (IH1 (Some x)). destruct (scan nm l (Some x)) as [r f].
      cbn [fst] in *.
      change (x :: y :: l) with ([x] ++ [y] ++ l)%list.
      change (y :: r) with ([y] ++ r)%list.
      rewrite !filter_app, IH1. cbn [filter]. unfold other.
      now rewrite E.
    + specialize (IH2 found). destruct (scan nm (y :: l) found) as [r f].
      cbn [fst] in *. change (x :: r) with ([x] ++ r)%list.
      change (x :: y :: l) with ([x] ++ y :: l)%list.
      now rewrite !filter_app, IH2.
Qed.

(** The item that the loop hands over, if any, has the name looked for. *)
Lemma scan_found_named (l : list item) :
  forall found it,
    (forall x, found = Some x -> named nm x = true) ->
    snd (scan nm l found) = Some it -> named nm it = true.
Proof.
  induction l as [| x | x y l IH1 IH2] using pair_induction; intros found it Hf.
  - cbn. auto.
  - rewrite scan_step. destruct (named nm x) eqn:E; cbn [scan snd]; [|auto].
    intros H; inversion H; subst; exact E.
  - rewrite scan_step. destruct (named nm x) eqn:E.
    + specialize (IH1 (Some x) it). destruct (scan nm l (Some x)) as [r f].
      cbn [snd] in *. apply IH1. intros x0 H; inversion H; subst; exact E.
    + specialize (IH2 found it Hf). destruct (scan nm (y :: l) found) as [r f].
      exact IH2.
Qed.

Lemma scan_absent (l : list item) (found : option item) :
  forallb (other nm) l = true -> scan nm l found = (l, found).
Proof.
  revert found. induction l as [|x l IH]; intros found H; [reflexivity|].
  cbn [forallb] in H. apply andb_true_iff in H as [Hx Hl].
  cbn [scan]. unfold other in Hx. apply negb_true_iff in Hx. rewrite Hx.
  now rewrite IH.
Qed.

Lemma NoDup_named_rest (x : item) (l : list item) :
  NoDup (map name (x :: l)) -> named nm x = true -> forallb (other nm) l = true.
Proof.
  intros Hnd Hx. inversion Hnd as [|? ? Hnotin _]; subst.
  apply forallb_forall. intros y Hy. unfold other, named in *.
  apply String.eqb_eq in Hx. apply negb_true_iff, String.eqb_neq.
  intros E. apply Hnotin. rewrite Hx, <- E. now apply in_map.
Qed.

Lemma filter_all {A : Type} (f : A -> bool) (l : list A) :
  forallb f l = true -> filter f l = l.
Proof.
  induction l as [|x l IH]; [reflexivity|]. cbn. intros H.
  apply andb_true_iff in H as [Hx Hl]. now rewrite Hx, IH.
Qed.

Lemma find_none_forallb (l : list item) :
  forallb (other nm) l = true -> find (named nm) l = None.
Proof.
  induction l as [|x l IH]; [reflexivity|]. cbn. intros H.
  apply andb_true_iff in H as [Hx Hl]. unfold other in Hx.
  apply negb_true_iff in Hx. now rewrite Hx, IH.
Qed.

(** On a cart with one line item per name the loop removes the line item
    of the name looked for and hands it over. *)
Lemma scan_unique (l : list item) (found : option item) :
  NoDup (map name l) ->
  scan nm l found
  = (filter (other nm) l,
     match find (named nm) l with Some x => Some x | None => found end).
Proof.
  revert found. induction l as [|x l IH]; intros found Hnd; [reflexivity|].
  cbn [scan filter find]. unfold other at 1. destruct (named nm x) eqn:E; cbn [negb].
  - pose proof (NoDup_named_rest x l Hnd E) as Hrest.
    rewrite (filter_all _ _ Hrest).
    destruct l as [|y l']; [reflexivity|].
    cbn [forallb] in Hrest. apply andb_true_iff in Hrest as [_ Hl'].
    now rewrite (scan_absent l' (Some x) Hl').
  - inversion Hnd; subst. now rewrite IH.
Qed.

End CartAdd.

Section CartInvariant.

Import Cart.

Lemma updateCart_scan (v : view) (cart : list item) :
  updateCart v cart
  = (fst (scan (product_name v) cart None)
       ++ [merged v (snd (scan (product_name v) cart None))])%list.
Proof.
  unfold updateCart. rewrite splice_named_scan.
  destruct (scan (product_name v) cart None) as [r f]. cbn [fst snd].
  unfold merged, quantity, chosen. now destruct (qty_input v).
Qed.

Lemma updateCart_unique (v : view) (cart : list item) :
  NoDup (map name cart) ->
  updateCart v cart
  = (filter (other (product_name v)) cart
       ++ [merged v (find (named (product_name v)) cart)])%list.
Proof.
  intros H. rewrite updateCart_scan, scan_unique by exact H. cbn [fst snd].
  now destruct (find _ cart).
Qed.

Lemma merged_name (v : view) (cart : list item) :
  name (merged v (find (named (product_name v)) cart)) = product_name v.
Proof.
  unfold merged. destruct (find _ cart) as [it|] eqn:E; [|reflexivity].
  apply find_some in E as [_ E]. now apply String.eqb_eq in E.
Qed.

Lemma addCart_accepted (v : view) (st : storage) :
  accepted v = true -> addCart v st = Some (updateCart v (cart_of st)).
Proof.
  unfold accepted, addCart, qty_min, qty_max, cart_of.
  destruct (qty_input v) as [q|]; [|discriminate]. intros H.
  apply andb_true_iff in H as [H1 H2].
  replace ((q <? 1)%Z || (q >? 10)%Z || (q =? 0)%Z) with false; [reflexivity|].
  symmetry. rewrite !orb_false_iff. repeat split; lia.
Qed.

Lemma addCart_refused (v : view) (st : storage) :
  accepted v = false -> addCart v st = st.
Proof.
  unfold accepted, addCart, qty_min, qty_max.
  destruct (qty_input v) as [q|]; [|reflexivity]. intros H.
  replace ((q <? 1)%Z || (q >? 10)%Z || (q =? 0)%Z) with true; [reflexivity|].
  symmetry. apply andb_false_iff in H. rewrite !orb_true_iff.
  destruct H as [H|H]; [left; left | left; right]; lia.
Qed.

Lemma In_filter_names (nm : string) (cart : list item) :
  ~ In nm (map name (filter (other nm) cart)).
Proof.
  intros H. apply in_map_iff in H as (x & Hx & Hin).
  apply filter_In in Hin as [_ Ho]. unfold other, named in Ho.
  apply negb_true_iff, String.eqb_neq in Ho. congruence.
Qed.

Lemma NoDup_filter_names (f : item -> bool) (cart : list item) :
  NoDup (map name cart) -> NoDup (map name (filter f cart)).
Proof.
  induction cart as [|x cart IH]; intros H; [constructor|].
  inversion H as [|? ? Hnotin Hnd]; subst. cbn [filter].
  destruct (f x); [|auto]. cbn [map]. constructor; [|auto].
  intros Hin. apply Hnotin. apply in_map_iff in Hin as (y & Hy & Hin).
  apply filter_In in Hin as [Hin _]. rewrite <- Hy. now apply in_map.
Qed.

Lemma updateCart_NoDup (v : view) (cart : list item) :
  NoDup (map name cart) -> NoDup (map name (updateCart v cart)).
Proof.
  intros H. rewrite updateCart_unique by exact H.
  rewrite map_app. cbn [map]. rewrite merged_name.
  apply NoDup_app; [now apply NoDup_filter_names | repeat constructor; intros [] |].
  intros x Hx [Hy|[]]. subst x. now apply In_filter_names in Hx.
Qed.

Lemma find_filter_other (n nm : string) (cart : list item) :
  n <> nm -> find (named n) (filter (other nm) cart) = find (named n) cart.
Proof.
  intros Hne. induction cart as [|x cart IH]; [reflexivity|].
  cbn [filter find]. unfold other at 1.
  destruct (named nm x) eqn:E; destruct (named n x) eqn:E'; cbn [negb find];
    rewrite ?E'; auto.
  unfold named in E, E'. apply String.eqb_eq in E, E'. congruence.
Qed.

Lemma find_filter_same (nm : string) (cart : list item) :
  find (named nm) (filter (other nm) cart) = None.
Proof.
  induction cart as [|x cart IH]; [reflexivity|].
  cbn [filter]. unfold other at 1. destruct (named nm x) eqn:E; cbn [negb]; [exact IH|].
  cbn [find]. now rewrite E.
Qed.

Lemma find_app_none {A : Type} (f : A -> bool) (l l' : list A) :
  find f l = None -> find f (l ++ l') = find f l'.
Proof.
  induction l as [|x l IH]; [reflexivity|]. cbn. destruct (f x); [discriminate | exact IH].
Qed.

Lemma find_app_some {A : Type} (f : A -> bool) (l l' : list A) (x : A) :
  find f l = Some x -> find f (l ++ l') = Some x.
Proof.
  induction l as [|y l IH]; [discriminate|]. cbn. destruct (f y); [auto | exact IH].
Qed.

(** Units of each product after one accepted click. *)
Lemma updateCart_units (v : view) (cart : list item) (n : string) :
  NoDup (map name cart) ->
  units n (updateCart v cart)
  = units n cart + (if String.eqb (product_name v) n then quantity v else 0).
Proof.
  intros H. rewrite updateCart_unique by exact H. unfold units.
  destruct (String.eqb_spec (product_name v) n) as [E|E].
  - subst n. rewrite find_app_none by apply find_filter_same.
    cbn [find]. unfold named at 1. rewrite merged_name, String.eqb_refl.
    unfold merged. destruct (find _ cart); cbn [customizations];
      rewrite length_app, repeat_length; reflexivity.
  - destruct (find (named n) cart) as [it|] eqn:F.
    + rewrite (find_app_some _ _ _ it); [lia|].
      rewrite find_filter_other by congruence. exact F.
    + rewrite find_app_none by (rewrite find_filter_other by congruence; exact F).
      cbn [find]. unfold named at 1. rewrite merged_name.
      destruct (String.eqb_spec (product_name v) n); [congruence | reflexivity].
Qed.

Lemma added_app (n : string) (a b : list view) :
  added n (a ++ b) = added n a + added n b.
Proof. induction a as [|v a IH]; cbn; [reflexivity | rewrite IH; lia]. Qed.

(** From a cart with one line item per name, a sequence of clicks leads
    to such a cart, in which each product has the units it had plus those
    added. *)
Lemma after_clicks_units (clicks : list view) (st : storage) :
  NoDup (map name (cart_of st)) ->
  NoDup (map name (cart_of (after_clicks clicks st)))
  /\ forall n, units n (cart_of (after_clicks clicks st))
               = units n (cart_of st) + added n clicks.
Proof.
  intros H0. induction clicks as [|v clicks [IHn IHu]] using rev_ind.
  - split; [exact H0 | intros n; cbn; lia].
  - unfold after_clicks in *. rewrite fold_left_app. cbn [fold_left].
    set (st' := fold_left _ clicks st) in *.
    destruct (accepted v) eqn:Ea.
    + rewrite addCart_accepted by exact Ea. cbn [cart_of]. split.
      * now apply updateCart_NoDup.
      * intros n. rewrite updateCart_units, IHu, added_app by exact IHn.
        cbn [added]. rewrite Ea. cbn [andb]. lia.
    + rewrite addCart_refused by exact Ea. split; [exact IHn|].
      intros n. rewrite IHu, added_app. cbn [added]. rewrite Ea. cbn. lia.
Qed.

Lemma units_of_member (cart : list item) (it : item) :
  NoDup (map name cart) -> In it cart ->
  units (name it) cart = List.length (customizations it).
Proof.
  unfold units. induction cart as [|x cart IH]; intros Hnd Hin; [destruct Hin|].
  inversion Hnd as [|? ? Hnotin Hnd']; subst. cbn [find]. unfold named at 1.
  destruct Hin as [->|Hin].
  - now rewrite String.eqb_refl.
  - destruct (String.eqb_spec (name x) (name it)) as [E|E]; [|auto].
    exfalso. apply Hnotin. rewrite E. now apply in_map.
Qed.

(** C3. Starting from an empty cart (no key, or a cleared cart), after
    any sequence of "Add To Cart" clicks the stored cart has at most one
    line item per product name, the customization list of each line item
    is as long as the total quantity added for its product, and every
    product with a positive total has its line item. *)
Theorem cart_add_invariant (clicks : list view) (st0 : storage) :
  cart_of st0 = [] ->
  let cart := cart_of (after_clicks clicks st0) in
  NoDup (map name cart)
  /\ (forall it, In it cart ->
                 List.length (customizations it) = added (name it) clicks)
  /\ (forall n, 0 < added n clicks -> exists it, In it cart /\ name it = n).
Proof.
  intros H0 cart.
  assert (Hnd0 : NoDup (map name (cart_of st0))) by (rewrite H0; constructor).
  destruct (after_clicks_units clicks st0 Hnd0) as [Hnd Hu].
  fold cart in Hnd, Hu. split; [exact Hnd|]. split.
  - intros it Hin. rewrite <- (units_of_member cart it Hnd Hin), Hu, H0.
    reflexivity.
  - intros n Hpos. specialize (Hu n). rewrite H0 in Hu. cbn in Hu.
    unfold units in Hu. destruct (find (named n) cart) as [it|] eqn:F; [|lia].
    apply find_some in F as [Hin Hn]. exists it. split; [exact Hin|].
    now apply String.eqb_eq in Hn.
Qed.

End CartInvariant.

(** Two clicks on the same product, one unit each, with different
    customizations: one line item, two customizations. *)
Example add_twice_merges :
  after_clicks
    [Cart.mkView (Some 1%Z) "Cake" "chocolate" "plain" 10;
     Cart.mkView (Some 1%Z) "Cake" "red-velvet" "flower" 10]
    None
  = Some [Cart.mkItem "Cake" 10
            [Cart.mkCustomization "Chocolate" "Plain";
             Cart.mkCustomization "Red Velvet" "Flower"]].
Proof. reflexivity. Qed.

Lemma cart_add_invariant_witness :
  let clicks := [Cart.mkView (Some 1%Z) "Cake" "chocolate" "plain" 10;
                 Cart.mkView (Some 1%Z) "Cake" "red-velvet" "flower" 10] in
  let cart := cart_of (after_clicks clicks None) in
  NoDup (map Cart.name cart)
  /\ (forall it, In it cart ->
                 List.length (Cart.customizations it) = added (Cart.name it) clicks)
  /\ (forall n, 0 < added n clicks -> exists it, In it cart /\ Cart.name it = n).
Proof.
  intros clicks. exact (cart_add_invariant clicks None eq_refl).
Defined.

Section CartOrder.

Import Cart.

Lemma filter_other_middle (nm : string) (pre post : list item) (old : item) :
  NoDup (map name (pre ++ old :: post)) -> name old = nm ->
  filter (other nm) (pre ++ old :: post) = (pre ++ post)%list
  /\ find (named nm) (pre ++ old :: post) = Some old.
Proof.
  intros Hnd Hn.
  assert (Hother : forall y, In y pre \/ In y post -> other nm y = true).
  { intros y Hy. unfold other, named. apply negb_true_iff, String.eqb_neq.
    intros E. rewrite map_app in Hnd. cbn [map] in Hnd.
    apply NoDup_remove_2 in Hnd. apply Hnd. rewrite Hn, <- E.
    apply in_or_app. destruct Hy; [left | right]; now apply in_map. }
  assert (Hold : named nm old = true) by (unfold named; now apply String.eqb_eq).
  split.
  - rewrite filter_app. cbn [filter]. unfold other at 2. rewrite Hold. cbn [negb].
    rewrite !filter_all; [reflexivity | |]; apply forallb_forall; auto.
  - rewrite find_app_none.
    + cbn [find]. now rewrite Hold.
    + apply find_none_forallb, forallb_forall. auto.
Qed.

(** C10. After an accepted click the line item of the product just added
    is the last of the stored cart and the line items of the other
    products keep their relative order; when the product was already in a
    cart with one line item per name, its line item [old] leaves its
    place and comes back at the end with the new units. *)
Theorem cart_add_moves_to_end (v : view) (cart : list item) :
  accepted v = true ->
  let nm := product_name v in
  let cart' := cart_of (addCart v (Some cart)) in
  (exists init it, cart' = (init ++ [it])%list /\ name it = nm)
  /\ filter (other nm) cart' = filter (other nm) cart
  /\ (forall pre old post,
         NoDup (map name cart) ->
         cart = (pre ++ old :: post)%list -> name old = nm ->
         cart' = (pre ++ post
                    ++ [mkItem nm (price old)
                          (customizations old ++ repeat (chosen v) (quantity v))])%list).
Proof.
  intros Ha nm cart'. unfold cart'. rewrite addCart_accepted by exact Ha.
  cbn [cart_of]. fold nm. split; [|split].
  - rewrite updateCart_scan. fold nm. eexists; eexists. split; [reflexivity|].
    unfold merged. destruct (snd (scan nm cart None)) as [it|] eqn:E; [|reflexivity].
    cbn [name]. apply scan_found_named in E; [|discriminate].
    now apply String.eqb_eq in E.
  - rewrite updateCart_scan. fold nm. rewrite filter_app, scan_keeps_others.
    cbn [filter]. replace (other nm _) with false; [apply app_nil_r|].
    symmetry. unfold other. apply negb_false_iff.
    unfold merged. destruct (snd (scan nm cart None)) as [it|] eqn:E.
    + cbn [name]. apply scan_found_named in E; [exact E | discriminate].
    + apply String.eqb_refl.
  - intros pre old post Hnd Hc Hn. rewrite updateCart_unique by exact Hnd.
    fold nm. subst cart.
    destruct (filter_other_middle nm pre post old Hnd Hn) as [Hf Hfind].
    rewrite Hf, Hfind. unfold merged. rewrite Hn. now rewrite <- app_assoc.
Qed.

End CartOrder.

Lemma cart_add_moves_to_end_witness :
  let v := Cart.mkView (Some 2%Z) "Cake" "chocolate" "bow" 10 in
  let cake := Cart.mkItem "Cake" 10 [Cart.mkCustomization "Vanilla" "Plain"] in
  let pie := Cart.mkItem "Pie" 10 [Cart.mkCustomization "Pumpkin" "Plain"] in
  let cookies := Cart.mkItem "Cookies" 2 [Cart.mkCustomization "Snickerdoodle" "Bow"] in
  cart_of (Cart.addCart v (Some [pie; cake; cookies]))
  = [pie; cookies;
     Cart.mkItem "Cake" 10
       [Cart.mkCustomization "Vanilla" "Plain";
        Cart.mkCustomization "Chocolate" "Bow";
        Cart.mkCustomization "Chocolate" "Bow"]].
Proof.
  intros v cake pie cookies.
  apply (proj2 (proj2 (cart_add_moves_to_end v [pie; cake; cookies] eq_refl))
           [pie] cake [cookies]).
  - repeat constructor; cbn; intuition discriminate.
  - reflexivity.
  - reflexivity.
Defined.

(** ** Removing from the cart *)

Section NameParsing.

Lemma find_index_skip (c0 : ascii) (pat pre s : string) :
  all_chars (fun c => negb (Ascii.eqb c c0)) pre = true ->
  JS.find_index (String c0 pat) (pre ++ s)
  = option_map (Nat.add (String.length pre)) (JS.find_index (String c0 pat) s).
Proof.
  induction pre as [|d pre IH]; intros H.
  - cbn [append String.length]. now destruct (JS.find_index _ s).
  - cbn [all_chars] in H. apply andb_true_iff in H as [Hd Hp].
    apply negb_true_iff, Ascii.eqb_neq in Hd.
    cbn [append JS.find_index String.prefix String.length].
    destruct (ascii_dec c0 d) as [E|_]; [congruence|].
    rewrite IH by exact Hp. now destruct (JS.find_index _ s).
Qed.

Lemma uint_no_space (d : Decimal.uint) :
  all_chars (fun c => negb (Ascii.eqb c " ")) (NilEmpty.string_of_uint d) = true.
Proof. induction d; cbn; auto. Qed.

Lemma digits_no_space (n : nat) :
  all_chars (fun c => negb (Ascii.eqb c " ")) (JS.string_of_nat n) = true.
Proof. apply uint_no_space. Qed.

Lemma prefix_dash_extend (c : ascii) (s t : string) :
  String.prefix " - " (String c (s ++ " ")) = false ->
  String.prefix " - " (String c (s ++ " - " ++ t)) = false.
Proof.
  assert (Hp : forall u, String.prefix EmptyString u = true) by now destruct u.
  destruct s as [|d [|e s]]; cbn [append String.prefix];
    destruct (ascii_dec " " c); rewrite ?Hp; auto.
Qed.

(** When [" - "] does not occur in [s] followed by a space, its first
    occurrence in [s] followed by [" - "] is at the end of [s]. *)
Lemma find_dash_after (s t : string) :
  JS.find_index " - " (s ++ " ") = None ->
  JS.find_index " - " (s ++ " - " ++ t) = Some (String.length s).
Proof.
  induction s as [|c s IH]; intros H; [now destruct t|].
  cbn [append JS.find_index] in H.
  destruct (String.prefix " - " (String c (s ++ " "))) eqn:P; [discriminate|].
  destruct (JS.find_index " - " (s ++ " ")) eqn:F; [discriminate|].
  change (JS.find_index " - " (String c s ++ " - " ++ t))
    with (if String.prefix " - " (String c (s ++ " - " ++ t)) then Some 0
          else option_map S (JS.find_index " - " (s ++ " - " ++ t))).
  rewrite (prefix_dash_extend c s t P), IH by reflexivity. reflexivity.
Qed.

Lemma substring_skip (a s : string) (m : nat) :
  String.substring (String.length a) m (a ++ s) = String.substring 0 m s.
Proof. induction a as [|c a IH]; [reflexivity | exact IH]. Qed.

Lemma substring_prefix (a s : string) :
  String.substring 0 (String.length a) (a ++ s) = a.
Proof.
  induction a as [|c a IH]; cbn; [now destruct s | now rewrite IH].
Qed.

Lemma slice_middle (a m r : string) (i j : Z) :
  i = Z.of_nat (String.length a) ->
  j = Z.of_nat (String.length a + String.length m) ->
  JS.slice (a ++ m ++ r) i j = m.
Proof.
  intros -> ->. unfold JS.slice, JS.rel_index. rewrite !length_append.
  destruct (Z.ltb_spec (Z.of_nat (String.length a)) 0); [lia|].
  destruct (Z.ltb_spec (Z.of_nat (String.length a + String.length m)) 0); [lia|].
  rewrite !Z.min_l by lia. rewrite Nat2Z.id.
  replace (Z.to_nat _) with (String.length m) by lia.
  rewrite substring_skip. apply substring_prefix.
Qed.

(** [removeItem] reads back the name from a text made of digits, a space,
    the name and [" - "]. *)
Lemma name_read_back (digits nm rest : string) :
  all_chars (fun c => negb (Ascii.eqb c " ")) digits = true ->
  readable_name nm = true ->
  let text := digits ++ " " ++ nm ++ " - " ++ rest in
  JS.slice text (JS.indexOf text " " + 1) (JS.indexOf text " - ") = nm.
Proof.
  intros Hd Hn text.
  assert (H1 : JS.indexOf text " " = Z.of_nat (String.length digits)).
  { unfold JS.indexOf, text. rewrite (find_index_skip " " EmptyString digits _ Hd).
    cbn [append JS.find_index String.prefix]. destruct (ascii_dec " " " ") as [_|E];
      [|congruence].
    replace (String.prefix EmptyString _) with true by (now destruct (nm ++ _)).
    cbn [option_map]. f_equal. lia. }
  assert (H2 : JS.indexOf text " - "
               = Z.of_nat (String.length digits + S (String.length nm))).
  { unfold JS.indexOf, text. rewrite (find_index_skip " " "- " digits _ Hd).
    change (" " ++ nm ++ " - " ++ rest) with ((" " ++ nm) ++ " - " ++ rest).
    rewrite find_dash_after; [reflexivity|].
    unfold readable_name, JS.includes in Hn. apply negb_true_iff in Hn.
    change ((" " ++ nm) ++ " ") with (" " ++ nm ++ " ").
    now destruct (JS.find_index " - " (" " ++ nm ++ " ")). }
  rewrite H1, H2. unfold text.
  replace (digits ++ " " ++ nm ++ " - " ++ rest)
    with ((digits ++ " ") ++ nm ++ " - " ++ rest) by now rewrite append_assoc.
  apply slice_middle; rewrite length_append; cbn [String.length]; lia.
Qed.

Lemma rendered_text (it : Cart.item) :
  Cart.textContent (rendered it)
  = JS.string_of_nat (List.length (Cart.customizations it))
    ++ " " ++ Cart.name it ++ " - "
    ++ ("$" ++ JS.toFixed2 (Cart.line_amount (rendered it)) ++ "X"
        ++ String.concat EmptyString (Cart.line_customs (rendered it))).
Proof.
  unfold Cart.textContent, rendered. cbn [Cart.line_label].
  now rewrite !append_assoc.
Qed.

Lemma parsed_name_rendered (it : Cart.item) :
  readable_name (Cart.name it) = true -> parsed_name (rendered it) = Cart.name it.
Proof.
  intros H. unfold parsed_name. rewrite rendered_text.
  apply name_read_back; [apply digits_no_space | exact H].
Qed.

End NameParsing.

Section CartRemove.

Import Cart.

Lemma fold_count {A : Type} (items : list A) (c : Z) :
  fold_left (fun n _ => (n + 1)%Z) items c = (c + Z.of_nat (List.length items))%Z.
Proof.
  revert c; induction items as [|x items IH]; intros c; cbn [fold_left List.length].
  - lia.
  - rewrite IH. lia.
Qed.

Lemma fold_total {A : Type} (items : list A) (p t : Z) :
  fold_left (fun t _ => (t + p)%Z) items t
  = (t + Z.of_nat (List.length items) * p)%Z.
Proof.
  revert t; induction items as [|x items IH]; intros t; cbn [fold_left List.length].
  - lia.
  - rewrite IH. lia.
Qed.

Lemma createItem_rendered (it : item) (pg : page) :
  createItem it pg
  = (rendered it,
     mkPage (stored pg)
            (cart_count pg + Z.of_nat (List.length (customizations it)))
            (total_price pg + Z.of_nat (List.length (customizations it)) * price it)
            (lines pg)).
Proof.
  unfold createItem, rendered. now rewrite fold_count, fold_total.
Qed.

Lemma listing_fold (cart : list item) (pg : page) :
  let pg' := fold_left (fun pg it =>
                          let (l, pg') := createItem it pg in
                          mkPage (stored pg') (cart_count pg') (total_price pg')
                                 (lines pg' ++ [l])%list) cart pg in
  stored pg' = stored pg /\ lines pg' = (lines pg ++ map rendered cart)%list.
Proof.
  revert pg; induction cart as [|it cart IH]; intros pg; cbn [fold_left map].
  - now rewrite app_nil_r.
  - rewrite createItem_rendered. cbn [stored cart_count total_price lines].
    destruct (IH (mkPage (stored pg)
                    (cart_count pg + Z.of_nat (List.length (customizations it)))
                    (total_price pg + Z.of_nat (List.length (customizations it)) * price it)
                    (lines pg ++ [rendered it])%list)) as [Hs Hl].
    cbn [stored lines] in Hs, Hl. cbv zeta. split; [exact Hs|].
    rewrite Hl. now rewrite <- app_assoc.
Qed.

Lemma listed_stored_lines (cart : list item) (c0 t0 : Z) :
  stored (listed cart c0 t0) = Some cart
  /\ lines (listed cart c0 t0) = map rendered cart.
Proof.
  unfold listed, initializeCart. cbn [stored].
  destruct (listing_fold cart (mkPage (Some cart) c0 t0 [])) as [Hs Hl].
  cbv zeta in Hs, Hl. cbn [stored lines] in Hs, Hl. split; [exact Hs | exact Hl].
Qed.

Lemma unique_delete (cart : list item) (k : nat) (it : item) :
  NoDup (map name cart) -> nth_error cart k = Some it ->
  filter (other (name it)) cart = JS.splice_delete cart k.
Proof.
  intros Hnd Hk. apply nth_error_split in Hk as (pre & post & -> & <-).
  rewrite splice_delete_middle.
  now destruct (filter_other_middle (name it) pre post it Hnd eq_refl).
Qed.

(** C4, amended. On a cart with one line item per name, listed by the
    cart page, the button of a line whose product name has no [" - "]
    once put between two spaces (none inside, no leading ["- "], no
    trailing [" -"], not ["-"] alone) reads that name back from the text
    [<qty> <name> - $<amount>], removes exactly that line item from
    session storage and from the page, lowers the count by its number of
    customizations and the total by the amount the line shows. *)
Theorem remove_line_item (cart : list item) (c0 t0 : Z) (k : nat) (it : item) :
  NoDup (map name cart) ->
  nth_error cart k = Some it ->
  readable_name (name it) = true ->
  removes_line cart c0 t0 k it.
Proof.
  intros Hnd Hk Hname. unfold removes_line. cbv zeta.
  destruct (listed_stored_lines cart c0 t0) as [Hs Hl].
  assert (Hline : nth_error (lines (listed cart c0 t0)) k = Some (rendered it)).
  { rewrite Hl. now apply map_nth_error. }
  pose proof (parsed_name_rendered it Hname) as Hparse.
  split; [exact Hline|]. split; [exact Hparse|].
  unfold removeItem. rewrite Hline, Hs.
  unfold parsed_name in Hparse. cbv zeta in Hparse. rewrite Hparse.
  rewrite splice_named_scan, scan_unique by exact Hnd. cbn [fst].
  rewrite (unique_delete cart k it Hnd Hk).
  unfold rendered at 1 2. cbn [line_customs line_amount]. now rewrite length_map.
Qed.

End CartRemove.

(** C4 as worded fails: the name ["Cake -"] has no [" - "] inside and no
    leading space, yet the text of its line is ["1 Cake - - $10.00X..."],
    from which [removeItem] reads ["Cake"]; no line item has that name and
    the line item stays in session storage. *)
Lemma remove_trailing_dash_name :
  let it := Cart.mkItem "Cake -" 10 [Cart.mkCustomization "Chocolate" "Plain"] in
  claimed_name (Cart.name it) = true
  /\ parsed_name (rendered it) = "Cake"
  /\ Cart.stored (Cart.removeItem 0 (listed [it] 0 0)) = Some [it]
  /\ ~ remove_claim.
Proof.
  intros it. split; [reflexivity|]. split; [reflexivity|]. split; [reflexivity|].
  intros H.
  assert (Hnd : NoDup (map Cart.name [it])) by (repeat constructor; intros []).
  destruct (H [it] 0%Z 0%Z 0 it Hnd eq_refl eq_refl) as (_ & Hp & _).
  discriminate Hp.
Qed.

Lemma remove_line_item_witness :
  let cake := Cart.mkItem "Cake" 10 [Cart.mkCustomization "Chocolate" "Plain";
                                     Cart.mkCustomization "Vanilla" "Flower"] in
  let brownies := Cart.mkItem "Brownies" 2 [Cart.mkCustomization "Chocolate" "Bow"] in
  removes_line [cake; brownies] 0 0 0 cake.
Proof.
  intros cake brownies.
  apply (remove_line_item [cake; brownies] 0 0 0 cake).
  - repeat constructor; cbn; intuition discriminate.
  - reflexivity.
  - reflexivity.
Defined.

Example remove_first_line :
  let cake := Cart.mkItem "Cake" 10 [Cart.mkCustomization "Chocolate" "Plain";
                                     Cart.mkCustomization "Vanilla" "Flower"] in
  let brownies := Cart.mkItem "Brownies" 2 [Cart.mkCustomization "Chocolate" "Bow"] in
  Cart.removeItem 0 (listed [cake; brownies] 0 0)
  = Cart.mkPage (Some [brownies]) 1 2 [rendered brownies].
Proof. reflexivity. Qed.

(** * Further properties *)

(** ** The two forms of a name *)

Section NameForms.

Lemma titled_split (s : string) :
  forall start, titled start (JS.split "-" s) = title_case start s.
Proof.
  induction s as [|c s IH]; intros start.
  - now destruct start.
  - cbn [JS.split title_case]. destruct (Ascii.eqb c "-") eqn:E.
    + rewrite <- IH. pose proof (split_not_nil "-" s) as H.
      destruct (JS.split "-" s) as [|w ws]; [congruence|].
      unfold titled. cbn [hd tl fold_right JS.capitalize].
      now destruct start.
    + rewrite <- IH. pose proof (split_not_nil "-" s) as H.
      destruct (JS.split "-" s) as [|w ws]; [congruence|].
      unfold titled. cbn [hd tl]. now destruct start.
Qed.

Lemma formatTitleCase_spec (s : string) : formatTitleCase s = title_case true s.
Proof.
  unfold formatTitleCase. rewrite fold_left_sep. apply (titled_split s true).
Qed.

Lemma lower_upper_char (c : ascii) :
  JS.lower_char (JS.upper_char c) = JS.lower_char c.
Proof. destruct c as [[] [] [] [] [] [] [] []]; reflexivity. Qed.

Lemma lower_char_not_dash (c : ascii) :
  Ascii.eqb c "-" = false -> Ascii.eqb (JS.lower_char c) "-" = false.
Proof. destruct c as [[] [] [] [] [] [] [] []]; intros H; (reflexivity || discriminate H). Qed.

Lemma upper_char_not_space (c : ascii) :
  Ascii.eqb c " " = false -> Ascii.eqb (JS.upper_char c) " " = false.
Proof. destruct c as [[] [] [] [] [] [] [] []]; intros H; (reflexivity || discriminate H). Qed.

Lemma lower_title_dash (name : string) :
  without "-" name = true ->
  forall start,
    JS.toLowerCase (title_case start (dash_lower name)) = JS.toLowerCase name.
Proof.
  unfold without. induction name as [|c name IH]; intros H start; [reflexivity|].
  cbn [all_chars] in H. apply andb_true_iff in H as [Hc Hn].
  apply negb_true_iff in Hc. cbn [dash_lower title_case]. unfold dash_char.
  destruct (Ascii.eqb c " ") eqn:Es.
  - apply Ascii.eqb_eq in Es. subst c. cbn. f_equal. now apply IH.
  - rewrite (lower_char_not_dash c Hc). cbn [JS.toLowerCase]. rewrite IH by exact Hn.
    f_equal. destruct start; [rewrite lower_upper_char|]; apply lower_char_idem.
Qed.

Lemma upper_lower_start (c : ascii) :
  JS.is_lower c = false -> JS.upper_char (JS.lower_char c) = c.
Proof. destruct c as [[] [] [] [] [] [] [] []]; intros H; (reflexivity || discriminate H). Qed.

Lemma lower_char_fixed (c : ascii) : JS.is_upper c = false -> JS.lower_char c = c.
Proof. unfold JS.lower_char. now intros ->. Qed.

Lemma title_dash_exact (name : string) :
  forall start, title_cased start name = true ->
                title_case start (dash_lower name) = name.
Proof.
  induction name as [|c name IH]; intros start H; [reflexivity|].
  cbn [title_cased] in H. cbn [dash_lower title_case]. unfold dash_char.
  destruct (Ascii.eqb c " ") eqn:Es.
  - apply Ascii.eqb_eq in Es. subst c. cbn. f_equal. now apply IH.
  - apply andb_true_iff in H as [H Hn]. apply andb_true_iff in H as [Hd Hc].
    apply negb_true_iff in Hd. rewrite (lower_char_not_dash c Hd).
    rewrite (IH false Hn). f_equal. destruct start; apply negb_true_iff in Hc.
    + now apply upper_lower_start.
    + now apply lower_char_fixed.
Qed.

(** X1. From the displayed name to the path segment and back, for a
    name of ASCII text: a name without a dash comes back up to the case of
    its letters, and a name written in title case comes back unchanged. *)
Theorem title_dash_title (name : string) :
  ascii_text name = true ->
  (without "-" name = true ->
   JS.toLowerCase (formatTitleCase (formatDashes name)) = JS.toLowerCase name)
  /\ (title_cased true name = true ->
      formatTitleCase (formatDashes name) = name).
Proof.
  intros _.
  rewrite formatTitleCase_spec, formatDashes_spec. split; intros H.
  - now apply lower_title_dash.
  - now apply title_dash_exact.
Qed.

Lemma dash_title_lower (d : string) :
  without " " d = true ->
  forall start, dash_lower (title_case start d) = JS.toLowerCase d.
Proof.
  unfold without. induction d as [|c d IH]; intros H start; [reflexivity|].
  cbn [all_chars] in H. apply andb_true_iff in H as [Hc Hd].
  apply negb_true_iff in Hc. cbn [title_case].
  destruct (Ascii.eqb c "-") eqn:E.
  - apply Ascii.eqb_eq in E. subst c. cbn. f_equal. now apply IH.
  - cbn [dash_lower JS.toLowerCase]. rewrite IH by exact Hd. f_equal.
    unfold dash_char. destruct start.
    + rewrite (upper_char_not_space c Hc). apply lower_upper_char.
    + now rewrite Hc.
Qed.

(** X2. From the path segment to the displayed name and back, for a
    segment of ASCII text: a segment without a space comes back
    lowercased, hence unchanged when it is already lowercase. *)
Theorem dash_title_dash (d : string) :
  ascii_text d = true ->
  without " " d = true ->
  formatDashes (formatTitleCase d) = JS.toLowerCase d.
Proof.
  intros _ H. rewrite formatTitleCase_spec, formatDashes_spec.
  now apply dash_title_lower.
Qed.

End NameForms.

Lemma title_dash_title_witness :
  JS.toLowerCase (formatTitleCase (formatDashes "Macarons (6 pcs)"))
  = JS.toLowerCase "Macarons (6 pcs)"
  /\ formatTitleCase (formatDashes "Mini Palmiers") = "Mini Palmiers".
Proof.
  split.
  - apply (proj1 (title_dash_title "Macarons (6 pcs)" eq_refl)). reflexivity.
  - apply (proj2 (title_dash_title "Mini Palmiers" eq_refl)). reflexivity.
Defined.

Lemma dash_title_dash_witness :
  formatDashes (formatTitleCase "mini-palmiers") = JS.toLowerCase "mini-palmiers".
Proof. apply (dash_title_dash "mini-palmiers"); reflexivity. Defined.

(** ** Product details and flavors *)

Section Details.

Import Server.

Lemma with_db_run {A : Type} (work : conn -> M A) (reply : A -> response)
    (fail : exn -> response) (w : world) :
  faults w = [] ->
  with_db work reply fail w
  = match work (next_conn w) (connected w) with
    | (inl x, w2) => (reply x, db_end (next_conn w) w2)
    | (inr err, w2) => (fail err, db_end (next_conn w) w2)
    end.
Proof. intros H. unfold with_db. now rewrite getDB_ok. Qed.

Lemma connected_open (w : world) :
  existsb (Nat.eqb (next_conn w)) (open_conns (connected w)) = true.
Proof. cbn. now rewrite Nat.eqb_refl. Qed.

Lemma getProduct_run (product : string) (w : world) :
  faults w = [] ->
  getProduct (next_conn w) product (connected w)
  = let w2 := queried (next_conn w) SelectProduct [product] (connected w) in
    match select_product product (store w) with
    | [] => (inr (mkError PRODUCT_404_ERR), w2)
    | rows => (inl rows, w2)
    end.
Proof.
  intros H. unfold getProduct, bind.
  rewrite db_query_ok; [| reflexivity | apply connected_open].
  unfold read_only, queried. cbn [store connected next_conn open_conns log].
  now destruct (select_product product (store w)).
Qed.

Lemma ci_eqb_sym (a b : string) : ci_eqb a b = ci_eqb b a.
Proof. unfold ci_eqb. apply String.eqb_sym. Qed.

Lemma ci_eqb_lower (a b : string) :
  ci_eqb a b = true <-> JS.toLowerCase a = JS.toLowerCase b.
Proof. unfold ci_eqb. apply String.eqb_eq. Qed.

Lemma segment_char_not_dash (c : ascii) :
  segment_char c = true -> negb (Ascii.eqb c "-") = true.
Proof. destruct c as [[] [] [] [] [] [] [] []]; intros H; (reflexivity || discriminate H). Qed.

Lemma all_chars_impl (P Q : ascii -> bool) (s : string) :
  (forall c, P c = true -> Q c = true) ->
  all_chars P s = true -> all_chars Q s = true.
Proof.
  intros HPQ. induction s as [|c s IH]; [reflexivity|].
  cbn [all_chars]. intros H. apply andb_true_iff in H as [Hc Hs].
  now rewrite (HPQ c Hc), IH.
Qed.

Lemma path_safe_without_dash (s : string) :
  path_safe s = true -> without "-" s = true.
Proof.
  unfold path_safe, without. intros H.
  apply andb_true_iff in H as [H _]. apply andb_true_iff in H as [H _].
  revert H. apply all_chars_impl. exact segment_char_not_dash.
Qed.

(** X3. The detail request that the pages build from a displayed name,
    [/products/] followed by [formatDashes name], finds the product. The
    name is one that reaches the route as the segment built from it: not
    empty, made of ASCII letters, digits, inner spaces and the marks
    [( ) ' & , !]. For a product of the catalog with such a name, the
    database answering, the route whose parameter is that segment answers
    200 with a row of the catalog that has this name up to case, and the
    tables are unchanged. *)
Theorem product_found_by_displayed_name (p : Server.product) (w : world) :
  faults w = [] ->
  In p (products (store w)) ->
  path_safe (p_name p) = true ->
  exists row w',
    get_product (formatDashes (p_name p)) w
    = (Sent (mkResponse 200 (JsonProduct (Some row))), w')
    /\ In row (products (store w))
    /\ ci_eqb (p_name row) (p_name p) = true
    /\ store w' = store w.
Proof.
  intros Hf Hin Hd. apply path_safe_without_dash in Hd.
  unfold get_product, after_middleware.
  rewrite with_db_run, getProduct_run by exact Hf.
  set (target := formatTitleCase (formatDashes (p_name p))).
  assert (Ht : JS.toLowerCase target = JS.toLowerCase (p_name p)).
  { unfold target. rewrite formatTitleCase_spec, formatDashes_spec.
    now apply lower_title_dash. }
  assert (Hp : In p (select_product target (store w))).
  { apply filter_In. split; [exact Hin|]. apply ci_eqb_lower. now rewrite Ht. }
  destruct (select_product target (store w)) as [|row rows] eqn:E; [destruct Hp|].
  assert (Hrow : In row (select_product target (store w))) by (rewrite E; now left).
  apply filter_In in Hrow as [Hr1 Hr2]. apply ci_eqb_lower in Hr2.
  cbv zeta. exists row. eexists. split; [reflexivity|]. split; [exact Hr1|].
  split; [apply ci_eqb_lower; congruence | reflexivity].
Qed.

Lemma getProduct_rows (db : conn) (product : string) (w w' : world)
    (rows : list Server.product) :
  getProduct db product w = (inl rows, w') -> rows <> [].
Proof.
  unfold getProduct, bind.
  destruct (db_query db SelectProduct [product] _ w) as [[r|e] w1]; [|discriminate].
  destruct r as [|x r]; cbn; [discriminate|].
  intros H; inversion H; discriminate.
Qed.

(** X4. A name that matches no product is answered 400 with the
    not-found message when the database answers; and whatever the
    database does, [GET /products/:product] never answers with an empty
    product. *)
Theorem product_not_found (name : string) (w : world) :
  (faults w = [] ->
   select_product (formatTitleCase name) (store w) = [] ->
   exists w',
     get_product name w = (Sent (mkResponse 400 (Text PRODUCT_404_ERR)), w'))
  /\ (forall r w', get_product name w = (Sent r, w') -> body r <> JsonProduct None).
Proof.
  split.
  - intros Hf Hnone. unfold get_product, after_middleware.
    rewrite with_db_run, getProduct_run by exact Hf. rewrite Hnone. cbv zeta.
    eexists. reflexivity.
  - intros r w'. unfold get_product, after_middleware, with_db.
    destruct (getDB w) as [[db|e] w1];
      [|intros H; inversion H; subst; unfold not_found_or_fault;
        destruct (String.eqb _ _); discriminate].
    destruct (getProduct db (formatTitleCase name) w1) as [[rows|e] w2] eqn:E.
    + apply getProduct_rows in E. intros H; inversion H; subst. cbn [body].
      destruct rows; [congruence | discriminate].
    + intros H; inversion H; subst. unfold not_found_or_fault.
      destruct (String.eqb _ _); discriminate.
Qed.

Lemma getProductFlavors_run (product : string) (w : world) :
  faults w = [] ->
  getProductFlavors (next_conn w) product (connected w)
  = let w2 := queried (next_conn w) SelectProduct [product] (connected w) in
    match select_product product (store w) with
    | [] => (inr (mkError PRODUCT_404_ERR), w2)
    | _ => (inl (select_product_flavors product (store w)),
            queried (next_conn w) SelectProductFlavors [product] w2)
    end.
Proof.
  intros H. unfold getProductFlavors, bind. rewrite getProduct_run by exact H.
  cbv zeta. destruct (select_product product (store w)); [reflexivity|].
  rewrite db_query_ok; [reflexivity | reflexivity | apply connected_open].
Qed.

(** X5. [GET /flavors/:product] tells a product without flavors from a
    missing product: with the database answering, an existing product is
    answered 200 with its flavors in table order, the empty list when it
    has none, and a name that matches no product is answered 400 with the
    not-found message. *)
Theorem flavors_of_product (name : string) (w : world) :
  faults w = [] ->
  exists w',
    get_flavors name w
    = (Sent (match select_product (formatTitleCase name) (store w) with
             | [] => mkResponse 400 (Text PRODUCT_404_ERR)
             | _ => mkResponse 200
                      (JsonStrings
                         (map pf_flavor
                            (select_product_flavors (formatTitleCase name) (store w))))
             end),
       w').
Proof.
  intros Hf. unfold get_flavors, after_middleware.
  rewrite with_db_run, getProductFlavors_run by exact Hf. cbv zeta.
  destruct (select_product (formatTitleCase name) (store w)); eexists; reflexivity.
Qed.

End Details.

Lemma product_found_witness :
  exists row w',
    Server.get_product "macarons-(6-pcs)" (Server.fresh Seed.catalog [])
    = (Server.Sent (Server.mkResponse 200 (Server.JsonProduct (Some row))), w')
    /\ In row Seed.seed_products
    /\ Server.ci_eqb (Server.p_name row) "Macarons (6 pcs)" = true
    /\ Server.store w' = Seed.catalog.
Proof.
  apply (product_found_by_displayed_name
           (Server.mkProduct "Macarons (6 pcs)" 10
              "Six homemade macarons, freshly baked. Each set is packaged in
 a beautiful handcrafted box." "imgs/macarons-6pcs.jpg")
           (Server.fresh Seed.catalog [])).
  - reflexivity.
  - right; left; reflexivity.
  - reflexivity.
Defined.

Lemma product_not_found_witness :
  exists w',
    Server.get_product "croissant" (Server.fresh Seed.catalog [])
    = (Server.Sent (Server.mkResponse 400 (Server.Text Server.PRODUCT_404_ERR)), w').
Proof.
  apply (proj1 (product_not_found "croissant" (Server.fresh Seed.catalog [])));
    reflexivity.
Defined.

(** A product without a row in [products_flavors]: the answer is an
    empty list, not an error. *)
Lemma flavors_of_product_witness :
  let d := Server.mkDatabase [Server.mkProduct "Scone" 3 "One scone." "imgs/scone.jpg"]
                             [] [Server.mkProductFlavor "Cake" "Chocolate"] [] [] in
  exists w',
    Server.get_flavors "scone" (Server.fresh d [])
    = (Server.Sent (Server.mkResponse 200 (Server.JsonStrings [])), w').
Proof.
  intros d. apply (flavors_of_product "scone" (Server.fresh d [])). reflexivity.
Defined.

(** ** The contact form on the server *)

Section Contact.

Import Server.

Lemma validateForm_cases (b : contact_body) :
  validateForm b
  = if JS.truthy (b_name b) && JS.truthy (b_email b) && JS.truthy (b_message b)
    then if JS.includes (text_of (b_email b)) "@" then Next
         else NextError 400 (mkError "Invalid email. Must contain '@'.")
    else NextError 400
           (mkError "Missing one or more of the required parameters: name, email and message.").
Proof.
  unfold validateForm.
  destruct (JS.truthy (b_name b)), (JS.truthy (b_email b)),
    (JS.truthy (b_message b)); cbn [negb orb andb]; try reflexivity.
  now destruct (JS.includes _ _).
Qed.

Lemma truthy_filled (v : option Express.value) :
  Express.truthy v = true <-> filled v.
Proof.
  destruct v as [[s|n|b| |items|fields]|]; cbn [Express.truthy filled];
    try (split; [discriminate | intros []]); try tauto.
  - destruct s; cbn; split; (discriminate || congruence || tauto).
  - rewrite negb_true_iff, Z.eqb_neq. tauto.
Qed.

Lemma includes_char (c : ascii) (s : string) :
  JS.includes s (String c EmptyString) = true <-> has_char c s.
Proof.
  unfold JS.includes, has_char. induction s as [|x s IH].
  - cbn. split; [discriminate | intros (a & b & H); destruct a; discriminate].
  - cbn [JS.find_index].
    change (String.prefix (String c EmptyString) (String x s))
      with (if Ascii.ascii_dec c x then String.prefix EmptyString s else false).
    destruct (Ascii.ascii_dec c x) as [->|Hne].
    + replace (String.prefix EmptyString s) with true by now destruct s.
      split; [intros _; now exists EmptyString, s | reflexivity].
    + destruct (JS.find_index (String c EmptyString) s) as [i|]; cbn [option_map].
      * split; [intros _|reflexivity].
        destruct (proj1 IH eq_refl) as (a & b & ->). now exists (String x a), b.
      * split; [discriminate|]. intros (a & b & H).
        destruct a as [|y a]; cbn in H; inversion H; subst; [congruence|].
        apply IH. now exists a, b.
Qed.

Lemma includes_element (items : list Express.value) :
  existsb (fun v => match v with
                    | Express.VString s => String.eqb s "@"
                    | _ => false
                    end) items = true
  <-> In (Express.VString "@") items.
Proof.
  rewrite existsb_exists. split.
  - intros (v & Hin & Hv). destruct v as [s| | | | |]; try discriminate.
    apply String.eqb_eq in Hv. now subst.
  - intros H. exists (Express.VString "@"). now split.
Qed.

Lemma includes_at_has_at (v : option Express.value) (found : bool) :
  Express.includes_at v = Express.Returned found -> (found = true <-> has_at v).
Proof.
  destruct v as [[s|n|b| |items|fields]|]; cbn [Express.includes_at has_at];
    try discriminate; intros H; inversion H; subst.
  - apply (includes_char "@").
  - apply includes_element.
Qed.

(** On a form whose fields are strings, the middleware and the route are
    those of [Server]. *)
Lemma validateForm_text (name email message : string) :
  Express.validateForm (text_body name email message)
  = Express.Returned
      (validateForm (mkContactBody (Some name) (Some email) (Some message))).
Proof.
  unfold Express.validateForm, validateForm, text_body.
  cbn [Express.name Express.email Express.message b_name b_email b_message
       Express.truthy Express.includes_at text_of].
  destruct (_ || _); [reflexivity|]. now destruct (JS.includes email "@").
Qed.

Lemma post_contact_us_text (name email message : string) (w : world) :
  Express.post_contact_us (text_body name email message)
    (contact_us_handler (mkContactBody (Some name) (Some email) (Some message))) w
  = post_contact_us (mkContactBody (Some name) (Some email) (Some message)) w.
Proof.
  unfold Express.post_contact_us, post_contact_us. now rewrite validateForm_text.
Qed.

(** X6. The validation of the contact form, on the values that a body
    can carry. The form is let through exactly when name, email and
    message count as given and the email, a string or an array, has an
    [@] (as a character, as an element). A form with a field that does
    not count as given is answered 400 with the first message; a given
    email without [@] is answered 400 with the second one; a given email
    that is a number, [true] or an object has no method [includes]: the
    call throws, and the answer is 200 with the message of the TypeError.
    In the three cases the handler is not entered and the world is
    untouched. *)
Theorem contact_form_validation
    (b : Express.body) (handler : world -> response * world) (w : world) :
  let given := filled (Express.name b) /\ filled (Express.email b)
               /\ filled (Express.message b) in
  let sent code msg :=
    Express.post_contact_us b handler w = (Sent (mkResponse code (Text msg)), w) in
  (Express.validateForm b = Express.Returned Next <-> given /\ has_at (Express.email b))
  /\ (~ given ->
      sent 400 "Missing one or more of the required parameters: name, email and message.")
  /\ (given -> has_includes (Express.email b) -> ~ has_at (Express.email b) ->
      sent 400 "Invalid email. Must contain '@'.")
  /\ (given -> ~ has_includes (Express.email b) ->
      sent 200 "req.body.email.includes is not a function").
Proof.
  intros given sent. unfold given, sent, Express.post_contact_us, Express.validateForm.
  rewrite <- !truthy_filled.
  destruct (Express.truthy (Express.name b)), (Express.truthy (Express.email b)) eqn:Ee,
    (Express.truthy (Express.message b)); cbn [negb orb];
    try (repeat split; try discriminate; try reflexivity; intuition discriminate).
  destruct (Express.includes_at (Express.email b)) as [found|err] eqn:Ei.
  - pose proof (includes_at_has_at _ _ Ei) as Hat.
    assert (Hinc : has_includes (Express.email b)).
    { destruct (Express.email b) as [[s|n|b0| |items|fields]|]; cbn in Ei |- *;
        (exact I || discriminate). }
    destruct found.
    + repeat split; intros; try reflexivity; tauto.
    + assert (Hnat : ~ has_at (Express.email b))
        by (intros H; apply Hat in H; discriminate).
      repeat split; intros; try reflexivity; try discriminate; tauto.
  - assert (Hinc : ~ has_includes (Express.email b)
                   /\ ~ has_at (Express.email b)
                   /\ err = Express.not_a_function "req.body.email.includes").
    { destruct (Express.email b) as [[s|n|b0| |items|fields]|]; cbn in Ei, Ee |- *;
        try discriminate; inversion Ei; tauto. }
    destruct Hinc as (Hno & Hnat & ->).
    repeat split; intros; try reflexivity; try discriminate; tauto.
Qed.

Lemma recordMessage_run (name email message : string) (w : world) :
  faults w = [] ->
  recordMessage (next_conn w) name email message (connected w)
  = let w2 := queried (next_conn w) InsertFeedback [name; email; message]
                      (connected w) in
    match insert_feedback name email message (store w) with
    | inl d' => (inl tt, mkWorld d' [] (next_conn w2) (open_conns w2) (log w2))
    | inr e => (inr e, w2)
    end.
Proof.
  intros H. unfold recordMessage.
  rewrite db_query_ok; [| reflexivity | apply connected_open].
  cbn [store connected]. cbv zeta.
  now destruct (insert_feedback name email message (store w)).
Qed.

Lemma ci_eqb_refl (a : string) : ci_eqb a a = true.
Proof. unfold ci_eqb. apply String.eqb_refl. Qed.

(** X7. A valid form of ASCII text that fits the columns of [feedback]
    (255 characters for the name and the address, 65535 for the message),
    with an address that is not in the table, the addresses of the table
    being plain too; the database answering. The answer is 200 with the
    confirmation, and the table holds the rows it had and the submitted
    row, whatever the order in which it keeps them; the same form sent
    again is answered 500 with the generic message and the table does
    not change. *)
Theorem contact_form_twice (name email message : string) (w : world) :
  let b := mkContactBody (Some name) (Some email) (Some message) in
  validateForm b = Next ->
  fits_feedback name email message = true ->
  ascii_text name = true -> plain_address email = true ->
  ascii_text message = true ->
  Forall (fun r => plain_address (fb_email r) = true) (feedback (store w)) ->
  faults w = [] ->
  existsb (fun r => ci_eqb (fb_email r) email) (feedback (store w)) = false ->
  exists w1 w2,
    post_contact_us b w
    = (Sent (mkResponse 200 (Text "Message successfully submitted! Thank you!")), w1)
    /\ Permutation (feedback (store w1))
                   (mkFeedback email name message :: feedback (store w))
    /\ post_contact_us b w1 = (Sent (mkResponse 500 (Text SERVER_ERROR)), w2)
    /\ feedback (store w2) = feedback (store w1).
Proof.
  intros b Hv Hfit _ _ _ _ Hf Hnew.
  assert (H1 : exists w1,
             post_contact_us b w
             = (Sent (mkResponse 200 (Text "Message successfully submitted! Thank you!")), w1)
             /\ feedback (store w1)
                = (feedback (store w) ++ [mkFeedback email name message])%list).
  { unfold post_contact_us. rewrite Hv. unfold after_middleware, contact_us_handler.
    cbn [b b_name b_email b_message text_of].
    rewrite with_db_run, recordMessage_run by exact Hf.
    unfold insert_feedback. rewrite Hfit, Hnew. cbv zeta.
    eexists. split; reflexivity. }
  destruct H1 as (w1 & Hrun & Hfb). exists w1.
  assert (Hperm : Permutation (feedback (store w1))
                    (mkFeedback email name message :: feedback (store w))).
  { rewrite Hfb. apply Permutation_sym, Permutation_cons_append. }
  assert (Hdup : existsb (fun r => ci_eqb (fb_email r) email) (feedback (store w1)) = true).
  { rewrite Hfb, existsb_app. cbn [existsb fb_email]. rewrite ci_eqb_refl.
    cbn [orb]. apply orb_true_r. }
  unfold post_contact_us in *. rewrite Hv in *.
  unfold after_middleware, contact_us_handler, with_db in *.
  cbn [b b_name b_email b_message text_of] in *.
  destruct (getDB w1) as [[db|e] w1'] eqn:Eg.
  - apply getDB_store in Eg.
    destruct (recordMessage_duplicate db name email message w1') as (e & w2' & Hr & Hs).
    { now rewrite Eg. }
    rewrite Hr. eexists. split; [exact Hrun|]. split; [exact Hperm|].
    split; [reflexivity|]. cbn [db_end store]. now rewrite Hs, Eg.
  - apply getDB_store in Eg. eexists. split; [exact Hrun|]. split; [exact Hperm|].
    split; [reflexivity|]. now rewrite Eg.
Qed.

End Contact.

Lemma contact_form_validation_witness :
  let b := Express.mkBody (Some (Express.VString "Ann")) (Some (Express.VNumber 5))
                          (Some (Express.VString "Hello")) in
  let handler :=
    Server.contact_us_handler
      (Server.mkContactBody (Some "Ann") (Some "5") (Some "Hello")) in
  let w := Server.fresh Seed.catalog [] in
  Express.post_contact_us b handler w
  = (Server.Sent (Server.mkResponse 200
                    (Server.Text "req.body.email.includes is not a function")), w).
Proof.
  intros b handler w.
  apply (proj2 (proj2 (proj2 (contact_form_validation b handler w)))).
  - repeat split; discriminate.
  - intros H. exact H.
Defined.

Lemma contact_form_twice_witness :
  let b := Server.mkContactBody (Some "Ann") (Some "ann@example.org") (Some "Hello") in
  let w := Server.fresh
             (Server.mkDatabase [] [] []
                [Server.mkFeedback "bob@example.org" "Bob" "Good morning"] [])
             [] in
  exists w1 w2,
    Server.post_contact_us b w
    = (Server.Sent (Server.mkResponse 200
                      (Server.Text "Message successfully submitted! Thank you!")), w1)
    /\ Permutation (Server.feedback (Server.store w1))
                   [Server.mkFeedback "ann@example.org" "Ann" "Hello";
                    Server.mkFeedback "bob@example.org" "Bob" "Good morning"]
    /\ Server.post_contact_us b w1
       = (Server.Sent (Server.mkResponse 500 (Server.Text Server.SERVER_ERROR)), w2)
    /\ Server.feedback (Server.store w2) = Server.feedback (Server.store w1).
Proof.
  intros b w.
  apply (contact_form_twice "Ann" "ann@example.org" "Hello" w);
    try reflexivity.
  repeat constructor.
Defined.

(** ** Customized descriptions: refusals and short descriptions *)

Section CustomDescription.

Import Server.

Lemma validateDescParams_missing (b : desc_body) (w : world) :
  JS.truthy (b_product b) && JS.truthy (b_flavor b) && JS.truthy (b_box b) = false ->
  validateDescParams b w
  = ((b, NextError 400
           (mkError "Missing one or more of the required parameters: product, flavor, box.")),
     w).
Proof.
  intros H. unfold validateDescParams.
  destruct (JS.truthy (b_product b)), (JS.truthy (b_flavor b)),
    (JS.truthy (b_box b)); cbn in H; try discriminate H; reflexivity.
Qed.

Lemma validateDescParams_run (b : desc_body) (w : world) :
  JS.truthy (b_product b) && JS.truthy (b_flavor b) && JS.truthy (b_box b) = true ->
  faults w = [] ->
  let product := formatTitleCase (text_of (b_product b)) in
  validateDescParams b w
  = ((mkDescBody (Some product) (b_flavor b) (b_box b),
      if Nat.eqb (List.length (select_name product (store w))) 0
      then NextError 400 (mkError PRODUCT_404_ERR) else Next),
     db_end (next_conn w)
            (queried (next_conn w) SelectName [product] (connected w))).
Proof.
  intros H Hf product. unfold validateDescParams.
  destruct (JS.truthy (b_product b)), (JS.truthy (b_flavor b)),
    (JS.truthy (b_box b)); cbn in H; try discriminate H. cbn [negb orb].
  fold product. rewrite getDB_ok by exact Hf.
  rewrite db_query_ok; [| reflexivity | apply connected_open].
  unfold read_only. cbn [store connected]. fold (connected w).
  unfold queried. cbn [store connected next_conn open_conns log].
  now destruct (Nat.eqb _ 0).
Qed.

(** X8. What [POST /custom-description] refuses. A request that lacks
    one of product, flavor and box (or has it empty) is answered 400
    with the missing-parameter message and the world is untouched. A
    request whose title-cased product name matches no product, the
    database answering, is answered 400 with the not-found message after
    one connection, one query and the end of that connection; the
    handler does not run. *)
Theorem custom_description_refusals (b : desc_body) (w : world) :
  (JS.truthy (b_product b) && JS.truthy (b_flavor b) && JS.truthy (b_box b) = false ->
   post_custom_description b w
   = (Sent (mkResponse 400
              (Text "Missing one or more of the required parameters: product, flavor, box.")),
      w))
  /\ (JS.truthy (b_product b) && JS.truthy (b_flavor b) && JS.truthy (b_box b) = true ->
      faults w = [] ->
      select_product (formatTitleCase (text_of (b_product b))) (store w) = [] ->
      exists w',
        post_custom_description b w
        = (Sent (mkResponse 400 (Text PRODUCT_404_ERR)), w')
        /\ store w' = store w
        /\ log w'
           = (log w ++ [EvConnect (next_conn w);
                        EvQuery (next_conn w) SelectName
                                [formatTitleCase (text_of (b_product b))];
                        EvEnd (next_conn w)])%list).
Proof.
  split.
  - intros H. unfold post_custom_description.
    now rewrite validateDescParams_missing.
  - intros H Hf Hnone. unfold post_custom_description.
    rewrite validateDescParams_run by assumption. cbv zeta.
    unfold select_name. rewrite Hnone. cbn [map List.length Nat.eqb after_middleware].
    eexists. split; [reflexivity|]. split; [reflexivity|].
    cbn [db_end queried connected log]. now rewrite <- !app_assoc.
Qed.

Lemma splice_insert_end {A : Type} (l : list A) (x : A) :
  List.length l <= 2 -> JS.splice_insert l 2 x = (l ++ [x])%list.
Proof.
  intros H. unfold JS.splice_insert, JS.rel_index. cbn [Z.ltb Z.compare].
  rewrite Z.min_r by lia. rewrite Nat2Z.id, firstn_all, skipn_all. reflexivity.
Qed.

(** The answer of [POST /custom-description] for a request that passes
    the middleware, the database answering. *)
Lemma custom_description_run (product flavor box : string) (w : world)
    (row : Server.product) (rest : list Server.product) :
  product <> EmptyString -> flavor <> EmptyString -> box <> EmptyString ->
  faults w = [] ->
  select_product (formatTitleCase product) (store w) = row :: rest ->
  exists w',
    post_custom_description
      (mkDescBody (Some product) (Some flavor) (Some box)) w
    = (Sent (mkResponse 200
               (Text (JS.join " "
                        (JS.splice_insert
                           (JS.splice_insert (JS.split " " (p_description row)) 2 flavor)
                           (-1) box)))),
       w').
Proof.
  intros Hp Hf Hb Hw Hrow. unfold post_custom_description.
  rewrite validateDescParams_run;
    [| cbn [b_product b_flavor b_box]; now rewrite !truthy_some | exact Hw].
  cbv zeta. cbn [b_product b_flavor b_box text_of].
  unfold select_name. rewrite Hrow. cbn [map List.length Nat.eqb after_middleware].
  unfold custom_description_handler. cbn [b_product b_flavor b_box text_of].
  rewrite with_db_run by reflexivity.
  unfold getDescription, bind.
  rewrite db_query_ok; [| reflexivity | apply connected_open].
  unfold read_only, select_description.
  cbn [store connected db_end queried]. rewrite Hrow.
  cbn [map List.length Nat.eqb ret hd]. eexists. reflexivity.
Qed.

(** X9. A description of one or two words: the flavor, inserted at
    index 2, lands at the end, and the box, inserted before the last
    word, lands just before the flavor; the answer is the words of the
    description followed by the box and then the flavor. *)
Theorem custom_description_short
    (product flavor box : string) (w : world)
    (row : Server.product) (rest : list Server.product) :
  product <> EmptyString -> flavor <> EmptyString -> box <> EmptyString ->
  faults w = [] ->
  select_product (formatTitleCase product) (store w) = row :: rest ->
  List.length (JS.split " " (p_description row)) <= 2 ->
  exists w',
    post_custom_description
      (mkDescBody (Some product) (Some flavor) (Some box)) w
    = (Sent (mkResponse 200
               (Text (JS.join " "
                        (JS.split " " (p_description row) ++ [box; flavor])%list))),
       w').
Proof.
  intros Hp Hf Hb Hw Hrow Hlen.
  destruct (custom_description_run product flavor box w row rest Hp Hf Hb Hw Hrow)
    as [w' Hrun].
  exists w'. rewrite Hrun. rewrite splice_insert_end by exact Hlen.
  now rewrite splice_insert_before_last.
Qed.

End CustomDescription.

Lemma custom_description_refusals_witness :
  exists w',
    Server.post_custom_description
      (Server.mkDescBody (Some "croissant") (Some "plain") (Some "bow"))
      (Server.fresh Seed.catalog [])
    = (Server.Sent (Server.mkResponse 400 (Server.Text Server.PRODUCT_404_ERR)), w')
    /\ Server.store w' = Seed.catalog
    /\ Server.log w'
       = [Server.EvConnect 0; Server.EvQuery 0 Server.SelectName ["Croissant"];
          Server.EvEnd 0].
Proof.
  apply (proj2 (custom_description_refusals
                  (Server.mkDescBody (Some "croissant") (Some "plain") (Some "bow"))
                  (Server.fresh Seed.catalog []))); reflexivity.
Defined.

Lemma custom_description_short_witness :
  let d := Server.mkDatabase [Server.mkProduct "Scone" 3 "One scone." "imgs/scone.jpg"]
                             [] [] [] [] in
  exists w',
    Server.post_custom_description
      (Server.mkDescBody (Some "scone") (Some "Plain") (Some "Bow"))
      (Server.fresh d [])
    = (Server.Sent (Server.mkResponse 200 (Server.Text "One scone. Bow Plain")), w').
Proof.
  intros d.
  apply (custom_description_short "scone" "Plain" "Bow" (Server.fresh d [])
           (Server.mkProduct "Scone" 3 "One scone." "imgs/scone.jpg") []);
    try discriminate; try reflexivity.
Defined.

(** ** The endpoints that read a file *)

Section FileLines.

Variable sep : ascii.

Lemma split_words_without (s : string) :
  Forall (fun w => without sep w = true) (JS.split sep s).
Proof.
  unfold without. induction s as [|c s IH]; [repeat constructor|].
  cbn [JS.split]. destruct (Ascii.eqb c sep) eqn:E.
  - constructor; [reflexivity | exact IH].
  - pose proof (split_not_nil sep s) as H.
    destruct (JS.split sep s) as [|w ws]; [congruence|].
    inversion IH; subst. constructor; [|assumption].
    cbn [all_chars]. rewrite E. assumption.
Qed.

Lemma split_app_sep (a s : string) :
  without sep a = true ->
  JS.split sep (a ++ String sep s) = a :: JS.split sep s.
Proof.
  unfold without. induction a as [|c a IH]; intros H.
  - cbn [append JS.split]. now rewrite Ascii.eqb_refl.
  - cbn [all_chars] in H. apply andb_true_iff in H as [Hc Ha].
    apply negb_true_iff in Hc. cbn [append JS.split]. rewrite Hc, IH by exact Ha.
    reflexivity.
Qed.

Lemma split_one_word (a : string) :
  without sep a = true -> JS.split sep a = [a].
Proof.
  unfold without. induction a as [|c a IH]; intros H; [reflexivity|].
  cbn [all_chars] in H. apply andb_true_iff in H as [Hc Ha].
  apply negb_true_iff in Hc. cbn [JS.split]. rewrite Hc, IH by exact Ha.
  reflexivity.
Qed.

(** Joining words that do not contain the separator and splitting again
    gives the words back. *)
Lemma split_join (ws : list string) :
  ws <> [] ->
  Forall (fun w => without sep w = true) ws ->
  JS.split sep (JS.join (String sep EmptyString) ws) = ws.
Proof.
  intros Hne H. induction H as [|w ws Hw Hws IH]; [congruence|].
  destruct ws as [|w' ws].
  - cbn. now apply split_one_word.
  - change (JS.join (String sep EmptyString) (w :: w' :: ws))
      with (w ++ String sep (JS.join (String sep EmptyString) (w' :: ws))).
    rewrite split_app_sep by exact Hw. f_equal. apply IH. discriminate.
Qed.

End FileLines.

Section TitleLines.

Import Server Files.

Lemma upper_char_not_newline (c : ascii) :
  Ascii.eqb c "010" = false -> Ascii.eqb (JS.upper_char c) "010" = false.
Proof. destruct c as [[] [] [] [] [] [] [] []]; intros H; (reflexivity || discriminate H). Qed.

Lemma title_case_one_line (s : string) :
  without "010" s = true ->
  forall start, without "010" (title_case start s) = true.
Proof.
  unfold without. induction s as [|c s IH]; intros H start; [reflexivity|].
  cbn [all_chars] in H. apply andb_true_iff in H as [Hc Hs].
  apply negb_true_iff in Hc. cbn [title_case].
  destruct (Ascii.eqb c "-"); cbn [all_chars]; rewrite IH by exact Hs.
  - reflexivity.
  - destruct start; [rewrite (upper_char_not_newline c Hc) | rewrite Hc]; reflexivity.
Qed.

(** X10. [GET /featured] and [GET /box-decorations] answer 200 with a
    text that has exactly the lines of the file, in order, each one in
    title case (dashes turned into spaces, first letters uppercased); when
    the file cannot be read the answer is 500 with the generic message. *)
Theorem file_lines_title_cased (file : option string) :
  get_box_decorations file = get_featured file
  /\ match file with
     | Some contents =>
         exists text,
           get_featured file = mkResponse 200 (Text text)
           /\ JS.split "010" text = map formatTitleCase (JS.split "010" contents)
     | None => get_featured file = mkResponse 500 (Text SERVER_ERROR)
     end.
Proof.
  split; [reflexivity|]. destruct file as [contents|]; [|reflexivity].
  eexists. split; [reflexivity|]. unfold title_lines. apply split_join.
  - pose proof (split_not_nil "010" contents).
    destruct (JS.split "010" contents); [congruence | discriminate].
  - apply Forall_map.
    eapply Forall_impl; [|apply (split_words_without "010" contents)].
    intros line Hline. rewrite formatTitleCase_spec.
    now apply title_case_one_line.
Qed.

End TitleLines.

(** ** Status codes and connections of the routes *)

Section Routes.

Import Server Api.


Lemma after_middleware_sent (s : signal) (handler : world -> response * world)
    (w w' : world) (r : response) :
  after_middleware s handler w = (Sent r, w') ->
  (s = Next /\ handler w = (r, w'))
  \/ (exists code err, s = NextError code err /\ r = errorHandler code err /\ w' = w).
Proof.
  unfold after_middleware. destruct s as [|code err|err].
  - destruct (handler w) as [r0 w0]. intros H; inversion H; auto.
  - intros H; inversion H; subst. right. eauto.
  - discriminate.
Qed.







(** X12. A request that starts without a connection and is answered
    leaves no connection open, on any route and whatever the database
    does; a connection can only stay open when no answer is sent. *)
Theorem answered_requests_close (req : request) (w w' : world) (r : response) :
  open_conns w = [] ->
  serve req w = (Sent r, w') ->
  open_conns w' = [].
Proof.
  intros Hw H. destruct (handlers_close_connection w Hw)
    as (Hp & Hd & Hfl & Hm & Hfa & Hc & Hcd).
  assert (Hleft : forall run : outcome * world,
             run = (Sent r, w') -> left_open run = [] -> open_conns w' = []).
  { intros run -> Hl. exact Hl. }
  destruct req as [q | name | name | | | b | b]; cbn [serve] in H;
    try (eapply Hleft; [exact H | auto]; fail).
  unfold post_custom_description in H.
  destruct (validateDescParams b w) as [[b' s] w1] eqn:E.
  assert (Hw1 : s = Rejected (mkError EmptyString) \/ open_conns w1 = []).
  { revert E. unfold validateDescParams. destruct (_ || _).
    - intros E; inversion E; subst. now right.
    - destruct (getDB w) as [[db|e] w2] eqn:Eg.
      + assert (Ho : open_conns w2 = [db]).
        { revert Eg. unfold getDB, pop_fault.
          destruct (faults w) as [|[|] fs]; intros Eg; inversion Eg; subst;
            cbn [open_conns]; now rewrite Hw. }
        pose proof (db_query_keeps db SelectName
                      [formatTitleCase (text_of (b_product b))]
                      (read_only (select_name (formatTitleCase (text_of (b_product b)))))
                      w2) as Hk.
        destruct (db_query db SelectName _ _ w2) as [[rows|e] w3].
        * cbn [snd] in Hk.
          assert (Hend : open_conns (db_end db w3) = []).
          { cbn [db_end open_conns]. rewrite Hk, Ho. cbn. now rewrite Nat.eqb_refl. }
          destruct (Nat.eqb _ 0); intros E; inversion E; subst; now right.
        * intros E; inversion E; subst. cbn in H. discriminate H.
      + intros E; inversion E; subst. cbn in H. discriminate H. }
  destruct Hw1 as [-> | Hw1]; [discriminate H|].
  apply after_middleware_sent in H as [[_ H]|(code & err & _ & _ & ->)];
    [|exact Hw1].
  destruct (handlers_close_connection w1 Hw1) as (_ & _ & _ & _ & _ & _ & Hcd1).
  specialize (Hcd1 b'). unfold left_open in Hcd1. now rewrite H in Hcd1.
Qed.

End Routes.


Lemma answered_requests_close_witness :
  let req := Api.PostContactUs
               (Server.mkContactBody (Some "Ann") (Some "ann@example.org") (Some "Hello")) in
  let w := Server.fresh Seed.catalog [false; true] in
  Server.open_conns (snd (Api.serve req w)) = [].
Proof.
  intros req w.
  apply (answered_requests_close req w (snd (Api.serve req w)) Server.server_fault);
    reflexivity.
Defined.

(** ** Searching the catalog *)

Section Search.

Import Server.



Lemma valid_order_of_next (q : products_query) :
  snd (validateProductsQuery q) = Next ->
  valid_order (JS.toLowerCase (or_default (q_sort q) "name"))
              (JS.toLowerCase (or_default (q_direction q) "asc")).
Proof.
  rewrite validate_signal. unfold valid_order.
  destruct (String.eqb_spec (JS.toLowerCase (or_default (q_sort q) "name")) "name");
    destruct (String.eqb_spec (JS.toLowerCase (or_default (q_sort q) "name")) "price");
    destruct (String.eqb_spec (JS.toLowerCase (or_default (q_direction q) "asc")) "asc");
    destruct (String.eqb_spec (JS.toLowerCase (or_default (q_direction q) "asc")) "desc");
    cbn [negb andb orb]; intros H; try discriminate H; tauto.
Qed.

Lemma connected_usable (w : world) : usable (next_conn w) (connected w).
Proof. split; [apply connected_open | reflexivity]. Qed.

(** The rows that the query selects, before they are ordered. *)
Lemma products_query_run (db : conn) (contains sort direction : string) (w : world) :
  usable db w -> valid_order sort direction ->
  exists le w',
    getProductsListFiltered db contains sort direction w
    = (inl (sort_by le
              (filter (fun p =>
                         forallb (fun pat => like_match pat (p_name p))
                                 (map (fun w => "%" ++ w ++ "%") (JS.split "-" contains)))
                      (products (store w)))),
       w').
Proof.
  intros [Hopen Hfault] [Hs Hd].
  unfold getProductsListFiltered, db_query, pop_fault.
  destruct (faults w) as [|b fs] eqn:Ef; cbn [hd] in Hfault; subst;
    cbn [open_conns store faults next_conn log]; rewrite Hopen; cbn [negb];
    unfold select_products_like; rewrite split_likes, Nat.eqb_refl; cbn [negb].
  all: destruct Hs as [-> | ->], Hd as [-> | ->]; cbn;
    eexists; eexists; reflexivity.
Qed.


Lemma Permutation_insert_by {A : Type} (le : A -> A -> bool) (x : A) (l : list A) :
  Permutation (insert_by le x l) (x :: l).
Proof.
  induction l as [|y l IH]; [reflexivity|]. cbn [insert_by].
  destruct (le x y); [reflexivity|].
  rewrite IH. apply perm_swap.
Qed.

Lemma Permutation_sort_by {A : Type} (le : A -> A -> bool) (l : list A) :
  Permutation (sort_by le l) l.
Proof.
  induction l as [|x l IH]; [reflexivity|]. cbn [sort_by fold_right].
  fold (sort_by le l). rewrite Permutation_insert_by. now constructor.
Qed.

(** X14. [GET /products] without a filter (the parameter missing or
    empty), with a sort key and a direction that validation accepts, in
    particular with no parameter at all, and the database answering: the
    answer is 200 with every product of the catalog, each one once. *)
Theorem products_unfiltered (q : products_query) (w : world) :
  JS.truthy (q_contains q) = false ->
  snd (validateProductsQuery q) = Next ->
  faults w = [] ->
  exists rows w',
    get_products q w = (Sent (mkResponse 200 (JsonProducts rows)), w')
    /\ Permutation rows (products (store w)).
Proof.
  intros Hc Hv Hf. unfold get_products.
  rewrite (surjective_pairing (validateProductsQuery q)), Hv, validate_request.
  unfold after_middleware, products_handler.
  cbn [q_contains q_sort q_direction text_of].
  rewrite with_db_run by exact Hf.
  assert (Hd : or_default (q_contains q) EmptyString = EmptyString).
  { unfold or_default. rewrite Hc. now destruct (q_contains q). }
  rewrite Hd.
  destruct (products_query_run (next_conn w) (formatDashes EmptyString)
              (JS.toLowerCase (or_default (q_sort q) "name"))
              (JS.toLowerCase (or_default (q_direction q) "asc"))
              (connected w) (connected_usable w) (valid_order_of_next q Hv))
    as (le & w' & Hrun).
  rewrite Hrun. eexists. eexists. split; [reflexivity|].
  rewrite Permutation_sort_by. cbn [store connected].
  rewrite filter_all; [reflexivity|].
  apply forallb_forall. intros p _.
  change (formatDashes EmptyString) with EmptyString.
  rewrite patterns_match_filter by reflexivity. apply empty_filter_matches.
Qed.

End Search.


Lemma products_unfiltered_witness :
  exists rows w',
    Server.get_products (Server.mkQuery None None None) (Server.fresh Seed.catalog [])
    = (Server.Sent (Server.mkResponse 200 (Server.JsonProducts rows)), w')
    /\ Permutation rows Seed.seed_products.
Proof.
  apply (products_unfiltered (Server.mkQuery None None None)
           (Server.fresh Seed.catalog [])); reflexivity.
Defined.

(** ** The cart page and the cart in storage *)

Section CartPage.

Import Cart.

Lemma total_units_cons (it : item) (cart : list item) :
  total_units (it :: cart)
  = (Z.of_nat (List.length (customizations it)) + total_units cart)%Z.
Proof. reflexivity. Qed.

Lemma total_amount_cons (it : item) (cart : list item) :
  total_amount (it :: cart)
  = (Z.of_nat (List.length (customizations it)) * price it + total_amount cart)%Z.
Proof. reflexivity. Qed.

Lemma listing_fold_counters (cart : list item) (pg : page) :
  fold_left (fun pg it =>
               let (l, pg') := createItem it pg in
               mkPage (stored pg') (cart_count pg') (total_price pg')
                      (lines pg' ++ [l])%list) cart pg
  = mkPage (stored pg)
           (cart_count pg + total_units cart)
           (total_price pg + total_amount cart)
           (lines pg ++ map rendered cart)%list.
Proof.
  revert pg; induction cart as [|it cart IH]; intros pg.
  - cbn. rewrite !Z.add_0_r, app_nil_r. now destruct pg.
  - cbn [fold_left]. rewrite createItem_rendered, IH.
    rewrite total_units_cons, total_amount_cons.
    cbn [stored cart_count total_price lines map].
    f_equal; [lia | lia | now rewrite <- app_assoc].
Qed.

Lemma listed_eq (cart : list item) (c0 t0 : Z) :
  listed cart c0 t0
  = mkPage (Some cart) (c0 + total_units cart) (t0 + total_amount cart)
           (map rendered cart).
Proof.
  unfold listed, initializeCart. cbn [stored]. now rewrite listing_fold_counters.
Qed.

(** X15. What the cart page shows once the stored cart is listed: one
    line per line item, in the order of the cart; the count raised by the
    number of customizations of the whole cart and the total raised by
    the sum, over the line items, of quantity times unit price; session
    storage is not modified. With no stored cart nothing changes. *)
Theorem cart_listing (cart : list item) (c0 t0 : Z) (ls : list line) :
  initializeCart (mkPage (Some cart) c0 t0 ls)
  = mkPage (Some cart) (c0 + total_units cart) (t0 + total_amount cart)
           (ls ++ map rendered cart)%list
  /\ initializeCart (mkPage None c0 t0 ls) = mkPage None c0 t0 ls.
Proof.
  split; [|reflexivity].
  unfold initializeCart. cbn [stored]. now rewrite listing_fold_counters.
Qed.

Lemma total_units_app (a b : list item) :
  total_units (a ++ b) = (total_units a + total_units b)%Z.
Proof.
  induction a as [|x a IH]; [reflexivity|].
  cbn [app]. rewrite !total_units_cons, IH. lia.
Qed.

Lemma total_amount_app (a b : list item) :
  total_amount (a ++ b) = (total_amount a + total_amount b)%Z.
Proof.
  induction a as [|x a IH]; [reflexivity|].
  cbn [app]. rewrite !total_amount_cons, IH. lia.
Qed.

Lemma removeItem_listed (cart : list item) (c0 t0 : Z) (k : nat) (it : item) :
  NoDup (map name cart) ->
  nth_error cart k = Some it ->
  readable_name (name it) = true ->
  removeItem k (listed cart c0 t0) = listed (JS.splice_delete cart k) c0 t0.
Proof.
  intros Hnd Hk Hname. rewrite !listed_eq. unfold removeItem.
  cbn [lines stored cart_count total_price].
  rewrite (map_nth_error rendered k cart Hk).
  pose proof (parsed_name_rendered it Hname) as Hparse.
  unfold parsed_name in Hparse. cbv zeta in Hparse. rewrite Hparse.
  rewrite splice_named_scan, scan_unique by exact Hnd. cbn [fst].
  rewrite (unique_delete cart k it Hnd Hk).
  apply nth_error_split in Hk as (pre & post & -> & <-).
  rewrite splice_delete_middle, map_app. cbn [map].
  rewrite <- (length_map rendered pre), splice_delete_middle, <- map_app.
  rewrite !total_units_app, !total_amount_app.
  rewrite total_units_cons, total_amount_cons.
  cbn [rendered line_customs line_amount].
  rewrite length_map. f_equal; lia.
Qed.

(** X16. Removing a line and reloading the cart page agree: on a cart
    with one line item per name, the page after the button of a line
    whose name can be read back is the page that lists the cart without
    that line item, with session storage already holding that cart. *)
Theorem remove_then_reload (cart : list item) (c0 t0 : Z) (k : nat) (it : item) :
  NoDup (map name cart) ->
  nth_error cart k = Some it ->
  readable_name (name it) = true ->
  removeItem k (initializeCart (mkPage (Some cart) c0 t0 []))
  = initializeCart (mkPage (Some (JS.splice_delete cart k)) c0 t0 []).
Proof. apply removeItem_listed. Qed.

Lemma total_units_split (nm : string) (cart : list item) :
  NoDup (map name cart) ->
  total_units cart
  = (total_units (filter (other nm) cart) + Z.of_nat (units nm cart))%Z.
Proof.
  unfold units. induction cart as [|x cart IH]; intros Hnd; [reflexivity|].
  pose proof Hnd as Hnd0. inversion Hnd as [|? ? _ Hnd']; subst.
  cbn [filter find]. rewrite total_units_cons. unfold other at 1.
  destruct (named nm x) eqn:E; cbn [negb].
  - pose proof (NoDup_named_rest nm x cart Hnd0 E) as Hrest.
    rewrite (filter_all _ _ Hrest). lia.
  - rewrite total_units_cons, (IH Hnd'). lia.
Qed.

Lemma accepted_quantity (v : view) : accepted v = true -> 1 <= quantity v <= 10.
Proof.
  unfold accepted, quantity. destruct (qty_input v) as [q|]; [|discriminate].
  intros H. apply andb_true_iff in H as [H1 H2]. lia.
Qed.

(** X17. One click on "Add To Cart", on a cart with one line item per
    name: when the quantity is a number from 1 to 10 the stored cart
    gains exactly that many units, and no unit of another product is lost
    or added; otherwise session storage is left as it is, a missing key
    included. *)
Theorem add_to_cart_units (v : view) (cart : list item) (st : storage) :
  (accepted v = true ->
   NoDup (map name cart) ->
   1 <= quantity v <= 10
   /\ total_units (cart_of (addCart v (Some cart)))
      = (total_units cart + Z.of_nat (quantity v))%Z
   /\ forall n, n <> product_name v ->
                units n (cart_of (addCart v (Some cart))) = units n cart)
  /\ (accepted v = false -> addCart v st = st).
Proof.
  split; [|apply addCart_refused].
  intros Ha Hnd. split; [now apply accepted_quantity|].
  rewrite addCart_accepted by exact Ha. cbn [cart_of]. split.
  - rewrite updateCart_unique by exact Hnd.
    rewrite total_units_app, (total_units_split (product_name v) cart Hnd).
    rewrite total_units_cons. change (total_units []) with 0%Z.
    unfold merged, units.
    destruct (find (named (product_name v)) cart); cbn [customizations];
      rewrite length_app, repeat_length; cbn [List.length]; lia.
  - intros n Hn. rewrite updateCart_units by exact Hnd.
    destruct (String.eqb_spec (product_name v) n); [congruence | lia].
Qed.

Lemma find_none_other (nm : string) (cart : list item) :
  find (named nm) cart = None -> forallb (other nm) cart = true.
Proof.
  induction cart as [|x cart IH]; [reflexivity|]. cbn [find forallb].
  unfold other at 1. destruct (named nm x); [discriminate|]. exact IH.
Qed.

(** X18. Adding a product that the cart does not hold and removing its
    line on the cart page gives the cart back: on a cart with one line
    item per name and for a product name that can be read back, the new
    line item is the last one, and the button of its line leaves the page
    that lists the cart as it was before the click on "Add To Cart". *)
Theorem add_then_remove (v : view) (cart : list item) (c0 t0 : Z) :
  accepted v = true ->
  NoDup (map name cart) ->
  find (named (product_name v)) cart = None ->
  readable_name (product_name v) = true ->
  let added_cart := cart_of (addCart v (Some cart)) in
  added_cart
  = (cart ++ [mkItem (product_name v) (single_view_price v)
                     (repeat (chosen v) (quantity v))])%list
  /\ removeItem (List.length cart) (initializeCart (mkPage (Some added_cart) c0 t0 []))
     = initializeCart (mkPage (Some cart) c0 t0 []).
Proof.
  intros Ha Hnd Hnone Hname added_cart.
  assert (Hcart : added_cart
                  = (cart ++ [mkItem (product_name v) (single_view_price v)
                                     (repeat (chosen v) (quantity v))])%list).
  { unfold added_cart. rewrite addCart_accepted by exact Ha. cbn [cart_of].
    rewrite updateCart_unique by exact Hnd. rewrite Hnone.
    rewrite (filter_all _ _ (find_none_other _ _ Hnone)). reflexivity. }
  split; [exact Hcart|].
  pose proof (updateCart_NoDup v cart Hnd) as Hnd'.
  assert (Hadded : added_cart = updateCart v cart).
  { unfold added_cart. now rewrite addCart_accepted. }
  rewrite <- Hadded in Hnd'.
  fold (listed added_cart c0 t0). fold (listed cart c0 t0).
  rewrite (removeItem_listed added_cart c0 t0 (List.length cart)
             (mkItem (product_name v) (single_view_price v)
                     (repeat (chosen v) (quantity v))) Hnd').
  - rewrite Hcart, splice_delete_middle. now rewrite app_nil_r.
  - rewrite Hcart. apply nth_error_middle.
  - exact Hname.
Qed.

End CartPage.

Lemma remove_then_reload_witness :
  let cake := Cart.mkItem "Cake" 10 [Cart.mkCustomization "Chocolate" "Plain";
                                     Cart.mkCustomization "Vanilla" "Flower"] in
  let brownies := Cart.mkItem "Brownies" 2 [Cart.mkCustomization "Chocolate" "Bow"] in
  Cart.removeItem 1 (Cart.initializeCart (Cart.mkPage (Some [cake; brownies]) 0 0 []))
  = Cart.initializeCart (Cart.mkPage (Some [cake]) 0 0 []).
Proof.
  intros cake brownies.
  apply (remove_then_reload [cake; brownies] 0 0 1 brownies).
  - repeat constructor; cbn; intuition discriminate.
  - reflexivity.
  - reflexivity.
Defined.

Lemma add_to_cart_units_witness :
  let v := Cart.mkView (Some 3%Z) "Cake" "chocolate" "bow" 10 in
  let cart := [Cart.mkItem "Pie" 10 [Cart.mkCustomization "Pumpkin" "Plain"];
               Cart.mkItem "Cake" 10 [Cart.mkCustomization "Vanilla" "Plain"]] in
  1 <= quantity v <= 10
  /\ total_units (cart_of (Cart.addCart v (Some cart)))
     = (total_units cart + Z.of_nat (quantity v))%Z
  /\ forall n, n <> Cart.product_name v ->
               units n (cart_of (Cart.addCart v (Some cart))) = units n cart.
Proof.
  intros v cart. apply (proj1 (add_to_cart_units v cart None)).
  - reflexivity.
  - repeat constructor; cbn; intuition discriminate.
Defined.

Lemma add_then_remove_witness :
  let v := Cart.mkView (Some 2%Z) "Mini Palmiers" "cinnamon" "bow" 8 in
  let cart := [Cart.mkItem "Pie" 10 [Cart.mkCustomization "Pumpkin" "Plain"]] in
  let added_cart := cart_of (Cart.addCart v (Some cart)) in
  added_cart
  = (cart ++ [Cart.mkItem "Mini Palmiers" 8 (repeat (chosen v) (quantity v))])%list
  /\ Cart.removeItem 1 (Cart.initializeCart (Cart.mkPage (Some added_cart) 0 0 []))
     = Cart.initializeCart (Cart.mkPage (Some cart) 0 0 []).
Proof.
  intros v cart.
  apply (add_then_remove v cart 0 0).
  - reflexivity.
  - repeat constructor; cbn; intuition discriminate.
  - reflexivity.
  - reflexivity.
Defined.

(** ** The contact form, from the page to the table *)

Section ContactEndToEnd.

Import Server ContactForm.

Lemma recordMessage_cases (db : conn) (name email message : string) (w : world) :
  (exists w2,
      recordMessage db name email message w = (inl tt, w2)
      /\ feedback (store w2)
         = (feedback (store w) ++ [mkFeedback email name message])%list)
  \/ (exists err w2,
         recordMessage db name email message w = (inr err, w2)
         /\ store w2 = store w).
Proof.
  unfold recordMessage, db_query, pop_fault, insert_feedback.
  destruct (faults w) as [|[|] fs]; cbn [store open_conns faults next_conn log];
    try (right; eexists; eexists; split; reflexivity).
  all: destruct (negb (existsb (Nat.eqb db) (open_conns w)));
    try (right; eexists; eexists; split; reflexivity);
    destruct (negb (fits_feedback name email message));
    try (right; eexists; eexists; split; reflexivity);
    destruct (existsb _ (feedback (store w)));
    try (right; eexists; eexists; split; reflexivity);
    left; eexists; split; reflexivity.
Qed.

(** X19. What the contact form shows for the answer of the server to its
    own fields. A form that validation refuses: the validation message of
    the server, the fields kept. A form that is stored: the confirmation,
    the form reset, and the feedback table has gained the submitted row.
    Any other answer (the address is already in the table, the database
    fails): the fixed message of the page, the fields kept, and the
    feedback table unchanged. *)
Theorem contact_form_end_to_end
    (f blank : form) (conf : string) (w w' : world) (r : response) :
  post_contact_us (body_of f) w = (Sent r, w') ->
  submitForm (fun _ => inl (on_wire r)) blank (mkPage conf f)
  = match validateForm (body_of f) with
    | NextError _ err => mkPage (message err) f
    | _ =>
        if Nat.eqb (status r) 200
        then mkPage "Message successfully submitted! Thank you!" blank
        else mkPage "The server encountered an error. Please try again later." f
    end
  /\ feedback (store w')
     = match validateForm (body_of f) with
       | NextError _ _ => feedback (store w)
       | _ =>
           if Nat.eqb (status r) 200
           then (feedback (store w)
                   ++ [mkFeedback (field_email f) (field_name f) (field_message f)])%list
           else feedback (store w)
       end.
Proof.
  unfold post_contact_us. rewrite validateForm_cases.
  destruct (_ && _).
  - destruct (JS.includes _ "@").
    + unfold after_middleware, contact_us_handler, with_db.
      cbn [body_of b_name b_email b_message text_of].
      destruct (getDB w) as [[db|e] w1] eqn:Eg.
      * apply getDB_store in Eg.
        destruct (recordMessage_cases db (field_name f) (field_email f)
                    (field_message f) w1) as [(w2 & Hr & Hs)|(err & w2 & Hr & Hs)];
          rewrite Hr; intros H; inversion H; subst; cbn [db_end store];
          (split; [reflexivity|]); cbn; congruence.
      * apply getDB_store in Eg. intros H; inversion H; subst.
        split; [reflexivity | cbn; congruence].
    + cbn [after_middleware]. intros H; inversion H; subst. split; reflexivity.
  - cbn [after_middleware]. intros H; inversion H; subst. split; reflexivity.
Qed.

End ContactEndToEnd.

Lemma contact_form_end_to_end_witness :
  let f := ContactForm.mkForm "Ann" "ann@example.org" "Hello again" in
  let blank := ContactForm.mkForm EmptyString EmptyString EmptyString in
  let w := Server.fresh
             (Server.mkDatabase [] [] [] [Server.mkFeedback "ann@example.org" "Ann" "Hello"] [])
             [] in
  ContactForm.submitForm (fun _ => inl (ContactForm.on_wire Server.server_fault)) blank
                         (ContactForm.mkPage EmptyString f)
  = ContactForm.mkPage "The server encountered an error. Please try again later." f
  /\ Server.feedback (Server.store (snd (Server.post_contact_us (ContactForm.body_of f) w)))
     = [Server.mkFeedback "ann@example.org" "Ann" "Hello"].
Proof.
  intros f blank w.
  apply (contact_form_end_to_end f blank EmptyString w
           (snd (Server.post_contact_us (ContactForm.body_of f) w))
           Server.server_fault).
  reflexivity.
Defined.

(** ** Featured names, from the file to the detail requests *)

Section FeaturedNames.

Import Server Files.

Lemma join_cons (sep w w' : string) (ws : list string) :
  JS.join sep (w :: w' :: ws) = w ++ sep ++ JS.join sep (w' :: ws).
Proof. reflexivity. Qed.

Lemma split_join_break (sep : ascii) (ws : list string) :
  ws <> [] ->
  Forall (fun w => without sep w = true) ws ->
  JS.split sep (JS.join (String sep EmptyString) ws ++ String sep EmptyString)
  = (ws ++ [EmptyString])%list.
Proof.
  intros Hne H. induction H as [|w ws Hw Hws IH]; [congruence|].
  destruct ws as [|w' ws].
  - cbn [JS.join String.concat app]. now rewrite split_app_sep.
  - rewrite join_cons, !append_assoc. cbn [append].
    rewrite split_app_sep by exact Hw. cbn [app]. f_equal. apply IH. discriminate.
Qed.

Lemma join_snoc_empty (sep : string) (ws : list string) :
  ws <> [] -> JS.join sep (ws ++ [EmptyString]) = JS.join sep ws ++ sep.
Proof.
  induction ws as [|w ws IH]; intros Hne; [congruence|].
  destruct ws as [|w' ws].
  - cbn. now rewrite append_nil_r.
  - cbn [app]. rewrite !join_cons. cbn [app] in IH. rewrite IH by discriminate.
    now rewrite !append_assoc.
Qed.

Lemma last_satisfies_app (P : ascii -> bool) (a b : string) :
  last_satisfies P b = true -> last_satisfies P (a ++ b) = true.
Proof.
  intros H. induction a as [|c a IH]; [exact H|].
  cbn [append last_satisfies]. destruct (a ++ b) eqn:E; [|exact IH].
  destruct a; [cbn in E; subst b|]; discriminate.
Qed.

Lemma last_satisfies_join (P : ascii -> bool) (sep : string) (ws : list string) :
  ws <> [] ->
  Forall (fun w => last_satisfies P w = true) ws ->
  last_satisfies P (JS.join sep ws) = true.
Proof.
  intros Hne H. induction H as [|w ws Hw Hws IH]; [congruence|].
  destruct ws as [|w' ws]; [exact Hw|].
  rewrite join_cons. apply last_satisfies_app, last_satisfies_app, IH. discriminate.
Qed.

Lemma trimEnd_keeps (s : string) :
  last_satisfies not_space s = true -> JS.trimEnd s = s.
Proof.
  induction s as [|c s IH]; [discriminate|]. cbn [last_satisfies JS.trimEnd].
  destruct s as [|d s].
  - cbn. unfold not_space. intros H. apply negb_true_iff in H. now rewrite H.
  - intros H. now rewrite (IH H).
Qed.

Lemma trimEnd_break (s : string) :
  JS.trimEnd (s ++ String "010" EmptyString) = JS.trimEnd s.
Proof.
  induction s as [|c s IH]; [reflexivity|].
  cbn [append JS.trimEnd]. now rewrite IH.
Qed.

Lemma trimStart_keeps (s : string) :
  first_satisfies not_space s = true -> JS.trimStart s = s.
Proof.
  destruct s as [|c s]; [discriminate|]. cbn. unfold not_space. intros H.
  apply negb_true_iff in H. now rewrite H.
Qed.

Lemma first_satisfies_app (P : ascii -> bool) (a b : string) :
  first_satisfies P a = true -> first_satisfies P (a ++ b) = true.
Proof. destruct a; [discriminate | auto]. Qed.

Lemma first_satisfies_join (P : ascii -> bool) (sep : string) (ws : list string) :
  first_satisfies P (hd EmptyString ws) = true ->
  first_satisfies P (JS.join sep ws) = true.
Proof.
  destruct ws as [|w [|w' ws]]; [discriminate | auto |].
  intros H. rewrite join_cons. now apply first_satisfies_app.
Qed.

Lemma upper_char_space (c : ascii) :
  JS.is_space c = false -> JS.is_space (JS.upper_char c) = false.
Proof. destruct c as [[] [] [] [] [] [] [] []]; intros H; (reflexivity || discriminate H). Qed.

Lemma not_space_chars (c : ascii) :
  JS.is_space c = false -> Ascii.eqb c " " = false /\ Ascii.eqb c "010" = false.
Proof.
  destruct c as [[] [] [] [] [] [] [] []]; intros H; split;
    (reflexivity || discriminate H).
Qed.

Lemma title_case_last (s : string) :
  all_chars not_space s = true ->
  last_satisfies not_dash s = true ->
  forall start, last_satisfies not_space (title_case start s) = true.
Proof.
  induction s as [|c s IH]; intros Hs Hl start; [discriminate|].
  cbn [all_chars] in Hs. apply andb_true_iff in Hs as [Hc Hs].
  unfold not_space in Hc. apply negb_true_iff in Hc.
  destruct s as [|d s].
  - cbn [last_satisfies] in Hl. unfold not_dash in Hl. apply negb_true_iff in Hl.
    cbn [title_case]. rewrite Hl. cbn [last_satisfies]. unfold not_space.
    destruct start; [rewrite (upper_char_space c Hc) | rewrite Hc]; reflexivity.
  - cbn [last_satisfies] in Hl.
    cbn [title_case]. destruct (Ascii.eqb c "-").
    + specialize (IH Hs Hl true). revert IH. cbn [title_case].
      destruct (Ascii.eqb d "-"); cbn [last_satisfies]; auto.
    + specialize (IH Hs Hl false). revert IH. cbn [title_case].
      destruct (Ascii.eqb d "-"); cbn [last_satisfies]; auto.
Qed.

Lemma toLowerCase_fixed (s : string) :
  all_chars (fun c => negb (JS.is_upper c)) s = true -> JS.toLowerCase s = s.
Proof.
  induction s as [|c s IH]; [reflexivity|]. cbn [all_chars JS.toLowerCase].
  intros H. apply andb_true_iff in H as [Hc Hs]. apply negb_true_iff in Hc.
  now rewrite (lower_char_fixed c Hc), IH.
Qed.

(** What a line in the form of a path segment gives. *)
Lemma slug_facts (l : string) :
  slug l = true ->
  without "010" (formatTitleCase l) = true
  /\ first_satisfies not_space (formatTitleCase l) = true
  /\ last_satisfies not_space (formatTitleCase l) = true
  /\ formatDashes (formatTitleCase l) = l.
Proof.
  unfold slug. intros H. apply andb_true_iff in H as [H Hlast].
  apply andb_true_iff in H as [Hall Hfirst].
  assert (Hsp : all_chars not_space l = true).
  { revert Hall. apply all_chars_impl. intros c Hc.
    apply andb_true_iff in Hc as [Hc _].
    now apply andb_true_iff in Hc as [_ Hc]. }
  assert (Hup : all_chars (fun c => negb (JS.is_upper c)) l = true).
  { revert Hall. apply all_chars_impl. intros c Hc.
    now apply andb_true_iff in Hc as [_ Hc]. }
  rewrite formatTitleCase_spec, formatDashes_spec. repeat split.
  - apply title_case_one_line. revert Hsp. apply all_chars_impl.
    intros c Hc. unfold not_space in Hc. apply negb_true_iff in Hc.
    apply negb_true_iff. now destruct (not_space_chars c Hc).
  - destruct l as [|c l]; [discriminate|]. cbn [first_satisfies] in Hfirst.
    unfold not_dash in Hfirst. apply negb_true_iff in Hfirst.
    cbn [title_case]. rewrite Hfirst. cbn [first_satisfies all_chars] in *.
    apply andb_true_iff in Hsp as [Hc _]. unfold not_space in *.
    apply negb_true_iff in Hc. now rewrite (upper_char_space c Hc).
  - now apply title_case_last.
  - rewrite dash_title_lower; [now apply toLowerCase_fixed|].
    revert Hsp. apply all_chars_impl. intros c Hc. unfold not_space in Hc.
    apply negb_true_iff in Hc. apply negb_true_iff.
    now destruct (not_space_chars c Hc).
Qed.

(** X20. From featured.txt to the requests of the home page. When the
    lines of the file are path segments (ASCII text, no white space, no
    uppercase letter, no dash at either end), with or without a final line
    break,
    [GET /featured] answers 200 with a text from which the home page reads
    back one name per line, the title-cased line, and the detail request
    built from each name is [/products/] followed by the line of the file. *)
Theorem featured_names_round_trip (lines : list string) (final_break : bool) :
  lines <> [] ->
  Forall (fun l => slug l = true) lines ->
  exists text,
    get_featured (Some (file_of lines final_break)) = mkResponse 200 (Text text)
    /\ names_of text = map formatTitleCase lines
    /\ map detail_url (names_of text) = map (fun l => "/products/" ++ l) lines.
Proof.
  intros Hne Hslug. eexists. split; [reflexivity|].
  set (titles := map formatTitleCase lines).
  assert (Htne : titles <> []) by (unfold titles; destruct lines; [congruence | discriminate]).
  assert (Hnl : Forall (fun w => without "010" w = true) titles).
  { apply Forall_map. eapply Forall_impl; [|exact Hslug].
    intros l Hl. now destruct (slug_facts l Hl). }
  assert (Hlast : Forall (fun w => last_satisfies not_space w = true) titles).
  { apply Forall_map. eapply Forall_impl; [|exact Hslug].
    intros l Hl. now destruct (slug_facts l Hl) as (_ & _ & H & _). }
  assert (Hfirst : first_satisfies not_space (hd EmptyString titles) = true).
  { unfold titles. destruct lines as [|l lines]; [congruence|]. cbn [map hd].
    inversion Hslug; subst. now destruct (slug_facts l) as (_ & H & _). }
  assert (Hlines : Forall (fun w => without "010" w = true) lines).
  { eapply Forall_impl; [|exact Hslug]. intros l Hl. unfold slug in Hl.
    apply andb_true_iff in Hl as [Hl _]. apply andb_true_iff in Hl as [Hl _].
    revert Hl. apply all_chars_impl. intros c Hc.
    apply andb_true_iff in Hc as [Hc _]. apply andb_true_iff in Hc as [_ Hc].
    unfold not_space in Hc.
    apply negb_true_iff in Hc. apply negb_true_iff.
    now destruct (not_space_chars c Hc). }
  assert (Hnames : names_of (title_lines (file_of lines final_break)) = titles).
  { unfold names_of, title_lines, file_of, JS.trim. destruct final_break.
    - rewrite split_join_break by assumption. rewrite map_app. cbn [map].
      change (formatTitleCase EmptyString) with EmptyString. fold titles.
      rewrite join_snoc_empty by exact Htne.
      rewrite trimStart_keeps
        by (apply first_satisfies_app, first_satisfies_join, Hfirst).
      rewrite trimEnd_break, trimEnd_keeps
        by (now apply last_satisfies_join).
      now apply split_join.
    - rewrite append_nil_r, split_join by assumption. fold titles.
      rewrite trimStart_keeps by (apply first_satisfies_join, Hfirst).
      rewrite trimEnd_keeps by (now apply last_satisfies_join).
      now apply split_join. }
  split; [exact Hnames|]. rewrite Hnames. unfold titles. rewrite map_map.
  apply map_ext_in. intros l Hl. unfold detail_url.
  rewrite Forall_forall in Hslug.
  destruct (slug_facts l (Hslug l Hl)) as (_ & _ & _ & Hback).
  now rewrite Hback.
Qed.

End FeaturedNames.

Lemma featured_names_round_trip_witness :
  exists text,
    Files.get_featured
      (Some ("cheesecake" ++ String "010" ("mini-palmiers" ++ String "010" EmptyString)))
    = Server.mkResponse 200 (Server.Text text)
    /\ names_of text = ["Cheesecake"; "Mini Palmiers"]
    /\ map detail_url (names_of text) = ["/products/cheesecake"; "/products/mini-palmiers"].
Proof.
  apply (featured_names_round_trip ["cheesecake"; "mini-palmiers"] true).
  - discriminate.
  - repeat constructor.
Defined.
